(** * Plugin resolution in [plugin_info_message_filter.cc]

    A shallow embedding of [PluginInfoMessageFilter]: the candidate selection
    of [Context::FindEnabledPlugin], the trust decision of
    [Context::DecidePluginStatus], their composition in [PluginsLoaded], and
    the query [OnIsInternalPluginAvailableForMimeType].

    The singletons the C++ reaches through [GetInstance()] are passed
    explicitly; values written through out-pointers are threaded as state. *)

From Stdlib Require Import ZArith String.
From stdpp Require Import base decidable option list strings.

Local Open Scope string_scope.

(** ** Data of namespace [content] *)

Module content.

(** Modelled from the spec: the declaration of [WebPluginInfo] lives in
    content/public/common/webplugininfo.h, outside the sources.  The spec
    gives a plugin a declared type from a small closed set that includes a
    legacy in-process type; the code names it [PLUGIN_TYPE_NPAPI]. *)
Inductive PluginType : Set :=
| PLUGIN_TYPE_NPAPI
| PLUGIN_TYPE_PEPPER_IN_PROCESS
| PLUGIN_TYPE_PEPPER_OUT_OF_PROCESS
| PLUGIN_TYPE_PEPPER_UNSANDBOXED.

#[global] Instance PluginType_eq_dec : EqDecision PluginType.
Proof. solve_decision. Defined.

(** Modelled from the spec: one MIME association of a plugin, with the
    members [OnIsInternalPluginAvailableForMimeType] reads.  [string16]
    and [std::string] are both [string] here. *)
Record WebPluginMimeType : Set := {
  mime_type : string;
  additional_param_names : list string;
  additional_param_values : list string
}.

(** Modelled from the spec: a registered plugin, with the members the
    filter reads: [path] (its identity), [type] and [mime_types]. *)
Record WebPluginInfo : Set := {
  path : string;
  type : PluginType;
  mime_types : list WebPluginMimeType
}.

End content.

Import content.

(** [GURL] and the resource context are opaque to the filter: it only hands
    them on to its collaborators. *)
Definition GURL : Set := string.
Definition ResourceContext : Set := Z.

(** ** Collaborators *)

(** Modelled from the spec: [content::PluginServiceFilter], of which only
    [IsPluginAvailable] is called; the arguments are the requesting process,
    the frame, the resource context, the two URLs and the plugin. *)
Record PluginServiceFilter : Set := {
  IsPluginAvailable : Z → Z → ResourceContext → GURL → GURL → WebPluginInfo → bool
}.

(** Modelled from the spec: the members of [content::PluginService] the
    filter calls.  [GetPluginInfoArray url mime_type allow_wildcard] fills two
    parallel vectors, the matching plugins and the MIME type each matched on;
    [GetFilter] is a pointer that may be null. *)
Record PluginService : Set := {
  GetPluginInfoArray : GURL → string → bool → list WebPluginInfo * list string;
  NPAPIPluginsSupported : bool;
  GetFilter : option PluginServiceFilter;
  IsPluginUnstable : string → bool;
  GetInternalPlugins : list WebPluginInfo
}.

(** Modelled from the spec: [extensions::WebViewRendererState], asked whether
    a render process hosts a <webview> guest. *)
Record WebViewRendererState : Set := {
  IsGuest : Z → bool
}.

(** ** Messages *)

Inductive ChromeViewHostMsg_GetPluginInfo_Status : Set :=
| kAllowed
| kDisabled
| kNotFound
| kNPAPINotSupported
| kUnauthorized.

#[global] Instance Status_eq_dec : EqDecision ChromeViewHostMsg_GetPluginInfo_Status.
Proof. solve_decision. Defined.

(** The reply of [ChromeViewHostMsg_GetPluginInfo].  [plugin] is [None] while
    the member is still the default-constructed [WebPluginInfo], that is,
    until [FindEnabledPlugin] assigns through the pointer. *)
Record ChromeViewHostMsg_GetPluginInfo_Output : Set := {
  status : ChromeViewHostMsg_GetPluginInfo_Status;
  plugin : option WebPluginInfo;
  actual_mime_type : string
}.

(** A freshly constructed output; [FindEnabledPlugin] overwrites [status]
    before anything reads it (see [FindEnabledPlugin_initial_status]). *)
Definition Output_new : ChromeViewHostMsg_GetPluginInfo_Output :=
  {| status := kAllowed; plugin := None; actual_mime_type := EmptyString |}.

Definition set_status (o : ChromeViewHostMsg_GetPluginInfo_Output)
    (s : ChromeViewHostMsg_GetPluginInfo_Status) :=
  {| status := s; plugin := plugin o; actual_mime_type := actual_mime_type o |}.

Definition set_plugin (o : ChromeViewHostMsg_GetPluginInfo_Output)
    (p : WebPluginInfo) :=
  {| status := status o; plugin := Some p; actual_mime_type := actual_mime_type o |}.

Definition set_actual_mime_type (o : ChromeViewHostMsg_GetPluginInfo_Output)
    (m : string) :=
  {| status := status o; plugin := plugin o; actual_mime_type := m |}.

Record GetPluginInfo_Params : Set := {
  render_frame_id : Z;
  url : GURL;
  top_origin_url : GURL;
  mime_type : string
}.

(** [PluginInfoMessageFilter::Context]. *)
Record PluginInfoMessageFilter_Context : Set := {
  render_process_id_ : Z;
  resource_context_ : ResourceContext
}.

(** The reply of [ChromeViewHostMsg_IsInternalPluginAvailableForMimeType]:
    the three out-parameters of the handler. *)
Record InternalPluginReply : Set := {
  is_available : bool;
  additional_param_names : list string;
  additional_param_values : list string
}.

(** ** The message loop *)

(** The messages the filter is offered: the two it names in its message
    map, and any other. *)
Inductive MessagePayload : Set :=
| ChromeViewHostMsg_GetPluginInfo (render_frame_id : Z)
    (url top_origin_url : GURL) (mime_type : string)
| ChromeViewHostMsg_IsInternalPluginAvailableForMimeType (mime_type : string)
| UnrelatedMessage.

(** An incoming synchronous message; [reply_msg_id] identifies the reply
    message the dispatch creates for it. *)
Record IPC_Message : Set := {
  reply_msg_id : Z;
  payload : MessagePayload
}.

(** What the filter hands to [Send]. *)
Inductive SentMessage : Set :=
| GetPluginInfo_reply (reply_msg : Z)
    (output : ChromeViewHostMsg_GetPluginInfo_Output)
| IsInternalPluginAvailableForMimeType_reply (reply_msg : Z)
    (reply : InternalPluginReply).

(** The callback [OnGetPluginInfo] builds with [base::Bind]:
    [PluginsLoaded] bound to a weak pointer, the params and the reply
    message.  A weak pointer is the generation of the factory it came from. *)
Record BoundPluginsLoaded : Set := {
  weak_ptr : nat;
  bound_params : GetPluginInfo_Params;
  bound_reply_msg : Z
}.

(** Modelled from the spec: the surroundings of the filter.  The spec
    describes the completion as a callback held through a weak, expiring
    reference that fires at most once and is a silent no-op once the
    reference is invalid.  [weak_ptr_factory_] counts the invalidations,
    [get_plugins_queue] holds the callbacks given to
    [PluginService::GetPlugins] and not yet run, [sent] the messages sent so
    far, oldest first. *)
Record World : Set := {
  weak_ptr_factory_ : nat;
  get_plugins_queue : list BoundPluginsLoaded;
  sent : list SentMessage
}.

(** A filter just constructed. *)
Definition World_new : World :=
  {| weak_ptr_factory_ := 0; get_plugins_queue := []; sent := [] |}.

(** Every queued callback holds a weak pointer the factory has issued. *)
Definition weak_ptrs_issued (w : World) : Prop :=
  Forall (λ cb, (weak_ptr cb ≤ weak_ptr_factory_ w)%nat) (get_plugins_queue w).

(** ** The filter *)

(** The MIME types of plugins known to have PPAPI versions. *)
Definition kPepperPluginMimeTypes : list string := [
  "application/pdf";
  "application/x-google-chrome-pdf";
  "application/x-nacl";
  "application/x-pnacl";
  "application/vnd.chromium.remoting-viewer";
  "application/x-shockwave-flash";
  "application/futuresplash"
].

(** The [for] over [kPepperPluginMimeTypes]: [true] when some entry equals
    the requested type, in which case the C++ returns from inside the loop. *)
Fixpoint pepper_mime_type_listed (mime : string) (l : list string) : bool :=
  match l with
  | [] => false
  | pepper_mime_type :: l' =>
      if String.eqb pepper_mime_type mime then true
      else pepper_mime_type_listed mime l'
  end.

(** The [for (; i < matching_plugins.size(); ++i)] of [FindEnabledPlugin],
    started at index [i] on the plugins from [i] on: the index at which the
    loop breaks, or [matching_plugins.size()] when it runs to the end. *)
Fixpoint first_available_from (avail : WebPluginInfo → bool)
    (l : list WebPluginInfo) (i : nat) : nat :=
  match l with
  | [] => i
  | p :: l' => if avail p then i else first_available_from avail l' (S i)
  end.

(** The inner [for] of [OnIsInternalPluginAvailableForMimeType] over one
    plugin's [mime_types]. *)
Fixpoint scan_mime_types (mime : string) (l : list WebPluginMimeType)
    : option WebPluginMimeType :=
  match l with
  | [] => None
  | m :: l' =>
      if String.eqb (content.mime_type m) mime then Some m
      else scan_mime_types mime l'
  end.

(** The outer [for] over the internal plugins. *)
Fixpoint scan_plugins (mime : string) (l : list WebPluginInfo)
    : option WebPluginMimeType :=
  match l with
  | [] => None
  | p :: l' =>
      match scan_mime_types mime (mime_types p) with
      | Some m => Some m
      | None => scan_plugins mime l'
      end
  end.

Module PluginInfoMessageFilter.

Section Filter.

(** [PluginService::GetInstance()], [WebViewRendererState::GetInstance()],
    whether the build defines [OS_WIN] or [OS_MACOSX], and [context_]. *)
Variable service : PluginService.
Variable webview : WebViewRendererState.
Variable os_win_or_macosx : bool.
Variable context_ : PluginInfoMessageFilter_Context.

(** [!filter || filter->IsPluginAvailable(...)]. *)
Definition plugin_available (render_frame_id : Z) (url top_origin_url : GURL)
    (p : WebPluginInfo) : bool :=
  match GetFilter service with
  | None => true
  | Some filter =>
      IsPluginAvailable filter (render_process_id_ context_) render_frame_id
        (resource_context_ context_) url top_origin_url p
  end.

(** [Context::FindEnabledPlugin].  The result is the returned [bool] and
    the output as left by the writes through [status], [plugin] and
    [actual_mime_type]; it is [None] when an index is out of range of its
    vector, where the C++ has no defined behaviour. *)
Definition FindEnabledPlugin (render_frame_id : Z) (url top_origin_url : GURL)
    (mime_type : string) (out : ChromeViewHostMsg_GetPluginInfo_Output)
    : option (bool * ChromeViewHostMsg_GetPluginInfo_Output) :=
  let out := set_status out kAllowed in
  let allow_wildcard := true in
  let '(matching_plugins, mime_types) :=
    GetPluginInfoArray service url mime_type allow_wildcard in
  match matching_plugins with
  | [] =>
      let out := set_status out kNotFound in
      if os_win_or_macosx
         && negb (NPAPIPluginsSupported service)
         && pepper_mime_type_listed mime_type kPepperPluginMimeTypes
      then Some (false, out)
      else Some (false, out)
  | _ :: _ =>
      let i :=
        first_available_from
          (plugin_available render_frame_id url top_origin_url)
          matching_plugins 0 in
      let enabled := bool_decide (i < length matching_plugins) in
      let '(i, out) :=
        if enabled then (i, out) else (0, set_status out kDisabled) in
      p ← matching_plugins !! i;
      m ← mime_types !! i;
      Some (enabled, set_actual_mime_type (set_plugin out p) m)
  end.

(** [Context::DecidePluginStatus], as a function of the status it finds in
    [*status].  The [CHECK] on the current thread is not modelled. *)
Definition DecidePluginStatus (params : GetPluginInfo_Params)
    (plugin : WebPluginInfo) (status : ChromeViewHostMsg_GetPluginInfo_Status)
    : ChromeViewHostMsg_GetPluginInfo_Status :=
  if bool_decide (type plugin = PLUGIN_TYPE_NPAPI)
     && IsGuest webview (render_process_id_ context_)
  then kNPAPINotSupported
  else if IsPluginUnstable service (path plugin) then kUnauthorized
  else if bool_decide (status = kAllowed) then
    if IsGuest webview (render_process_id_ context_) then kUnauthorized
    else status
  else status.

(** [PluginsLoaded]: the output written into the reply.  The [plugins]
    argument of the callback is not used by the C++. *)
Definition PluginsLoaded (params : GetPluginInfo_Params)
    : option ChromeViewHostMsg_GetPluginInfo_Output :=
  '(enabled, output) ←
    FindEnabledPlugin (render_frame_id params) (url params)
      (top_origin_url params) (mime_type params) Output_new;
  if (enabled : bool) then
    p ← plugin output;
    Some (set_status output (DecidePluginStatus params p (status output)))
  else Some output.

(** [OnIsInternalPluginAvailableForMimeType], from the values the three
    out-parameters hold on entry.  The writes to the log file are left out. *)
Definition OnIsInternalPluginAvailableForMimeType (mime_type : string)
    (reply : InternalPluginReply) : InternalPluginReply :=
  let plugins := GetInternalPlugins service in
  match scan_plugins mime_type plugins with
  | Some m =>
      {| is_available := true;
         additional_param_names := content.additional_param_names m;
         additional_param_values := content.additional_param_values m |}
  | None =>
      {| is_available := false;
         additional_param_names := additional_param_names reply;
         additional_param_values := additional_param_values reply |}
  end.

(** Modelled from the spec: the dispatch of the synchronous message by
    [IPC_MESSAGE_HANDLER] (the macro is outside the sources) hands the
    handler a freshly constructed reply, whose sequences are empty. *)
Definition InternalPluginReply_new : InternalPluginReply :=
  {| is_available := false;
     additional_param_names := [];
     additional_param_values := [] |}.

Definition IsInternalPluginAvailableForMimeType (mime_type : string)
    : InternalPluginReply :=
  OnIsInternalPluginAvailableForMimeType mime_type InternalPluginReply_new.

(** *** Vocabulary of the claims, in terms of the code *)

(** The two vectors [GetPluginInfoArray] fills for a request. *)
Definition matching_plugins_of (params : GetPluginInfo_Params)
    : list WebPluginInfo :=
  (GetPluginInfoArray service (url params) (mime_type params) true).1.

Definition mime_types_of (params : GetPluginInfo_Params) : list string :=
  (GetPluginInfoArray service (url params) (mime_type params) true).2.

Definition available_for (params : GetPluginInfo_Params) (p : WebPluginInfo)
    : bool :=
  plugin_available (render_frame_id params) (url params)
    (top_origin_url params) p.

(** The index [i] that [FindEnabledPlugin] reads both vectors at. *)
Definition chosen_index (params : GetPluginInfo_Params) : nat :=
  let i := first_available_from (available_for params)
             (matching_plugins_of params) 0 in
  if bool_decide (i < length (matching_plugins_of params)) then i else 0.

Definition chosen_plugin (params : GetPluginInfo_Params)
    : option WebPluginInfo :=
  matching_plugins_of params !! chosen_index params.

Definition is_guest : bool := IsGuest webview (render_process_id_ context_).

End Filter.

Section Dispatch.

Variable service : PluginService.
Variable webview : WebViewRendererState.
Variable os_win_or_macosx : bool.
Variable context_ : PluginInfoMessageFilter_Context.

(** Whether the build defines [ENABLE_PEPPER_CDMS]. *)
Variable enable_pepper_cdms : bool.

(** [OnGetPluginInfo]: packs the params and hands [PluginsLoaded], bound to
    a fresh weak pointer, to [PluginService::GetPlugins]. *)
Definition OnGetPluginInfo (render_frame_id : Z) (url top_origin_url : GURL)
    (mime_type : string) (reply_msg : Z) (w : World) : World :=
  let params :=
    {| render_frame_id := render_frame_id;
       url := url;
       top_origin_url := top_origin_url;
       mime_type := mime_type |} in
  {| weak_ptr_factory_ := weak_ptr_factory_ w;
     get_plugins_queue :=
       get_plugins_queue w ++
       [ {| weak_ptr := weak_ptr_factory_ w;
            bound_params := params;
            bound_reply_msg := reply_msg |} ];
     sent := sent w |}.

(** [OnMessageReceived]: the returned [bool] and the world after the handler
    ran.  The handler of the internal-plugin query is compiled in only with
    [ENABLE_PEPPER_CDMS]; being a plain handler of a synchronous message, its
    reply is sent as soon as it returns. *)
Definition OnMessageReceived (message : IPC_Message) (w : World)
    : bool * World :=
  match payload message with
  | ChromeViewHostMsg_GetPluginInfo render_frame_id url top_origin_url mime_type =>
      (true,
       OnGetPluginInfo render_frame_id url top_origin_url mime_type
         (reply_msg_id message) w)
  | ChromeViewHostMsg_IsInternalPluginAvailableForMimeType mime_type =>
      if enable_pepper_cdms then
        (true,
         {| weak_ptr_factory_ := weak_ptr_factory_ w;
            get_plugins_queue := get_plugins_queue w;
            sent :=
              sent w ++
              [ IsInternalPluginAvailableForMimeType_reply
                  (reply_msg_id message)
                  (IsInternalPluginAvailableForMimeType service mime_type) ] |})
      else (false, w)
  | UnrelatedMessage => (false, w)
  end.

(** [OnDestruct]: [InvalidateWeakPtrs].  The deletion on the UI thread that
    follows is not modelled. *)
Definition OnDestruct (w : World) : World :=
  {| weak_ptr_factory_ := S (weak_ptr_factory_ w);
     get_plugins_queue := get_plugins_queue w;
     sent := sent w |}.

(** The plugin list arrives for the [k]-th queued callback: the callback
    leaves the queue and, if its weak pointer is still valid, runs
    [PluginsLoaded], which sends the reply. *)
Definition plugins_arrive (k : nat) (w : World) : option World :=
  match get_plugins_queue w !! k with
  | None => Some w
  | Some cb =>
      if bool_decide (weak_ptr cb = weak_ptr_factory_ w) then
        output ← PluginsLoaded service webview os_win_or_macosx context_
                   (bound_params cb);
        Some {| weak_ptr_factory_ := weak_ptr_factory_ w;
                get_plugins_queue := delete k (get_plugins_queue w);
                sent := sent w ++
                        [GetPluginInfo_reply (bound_reply_msg cb) output] |}
      else
        Some {| weak_ptr_factory_ := weak_ptr_factory_ w;
                get_plugins_queue := delete k (get_plugins_queue w);
                sent := sent w |}
  end.

(** The plugin list arrives for several queued callbacks, one after the
    other. *)
Fixpoint plugins_arrive_all (ks : list nat) (w : World) : option World :=
  match ks with
  | [] => Some w
  | k :: ks' => w' ← plugins_arrive k w; plugins_arrive_all ks' w'
  end.

End Dispatch.

End PluginInfoMessageFilter.

(** ** Concrete requests

    The catalog of the spec's scenarios: [P1] handles [application/pdf] out
    of process, [P2] is a legacy in-process plugin behind a wildcard. *)

Definition P1 : WebPluginInfo :=
  {| path := "/plugins/pdf";
     type := PLUGIN_TYPE_PEPPER_OUT_OF_PROCESS;
     mime_types :=
       [ {| content.mime_type := "application/pdf";
            content.additional_param_names := ["zoom"];
            content.additional_param_values := ["fit"] |} ] |}.

Definition P2 : WebPluginInfo :=
  {| path := "/plugins/legacy";
     type := PLUGIN_TYPE_NPAPI;
     mime_types :=
       [ {| content.mime_type := "*";
            content.additional_param_names := [];
            content.additional_param_values := [] |} ] |}.

(** A plugin service answering every lookup with the given vectors; a plugin
    is unstable when its path is listed. *)
Definition table_service (plugins : list WebPluginInfo) (mimes : list string)
    (npapi_supported : bool) (filter : option PluginServiceFilter)
    (unstable : list string) (internal : list WebPluginInfo) : PluginService :=
  {| GetPluginInfoArray := λ _ _ _, (plugins, mimes);
     NPAPIPluginsSupported := npapi_supported;
     GetFilter := filter;
     IsPluginUnstable := λ p, bool_decide (p ∈ unstable);
     GetInternalPlugins := internal |}.

Definition reject_all : PluginServiceFilter :=
  {| IsPluginAvailable := λ _ _ _ _ _ _, false |}.

(** The filter that lets through only the plugin at [p]. *)
Definition accept_only (p : string) : PluginServiceFilter :=
  {| IsPluginAvailable := λ _ _ _ _ _ q, bool_decide (path q = p) |}.

(** Render process 7 hosts a <webview> guest, no other process does. *)
Definition guest7 : WebViewRendererState :=
  {| IsGuest := λ pid, bool_decide (pid = 7%Z) |}.

Definition context_guest : PluginInfoMessageFilter_Context :=
  {| render_process_id_ := 7%Z; resource_context_ := 0%Z |}.

Definition context_page : PluginInfoMessageFilter_Context :=
  {| render_process_id_ := 3%Z; resource_context_ := 0%Z |}.

Definition request_pdf : GetPluginInfo_Params :=
  {| render_frame_id := 1%Z;
     url := "https://example.org/a.pdf";
     top_origin_url := "https://example.org/";
     mime_type := "application/pdf" |}.

Definition request_mp4 : GetPluginInfo_Params :=
  {| render_frame_id := 1%Z;
     url := "https://example.org/a.mp4";
     top_origin_url := "https://example.org/";
     mime_type := "video/mp4" |}.

(** Both plugins match [application/pdf], [P1] exactly and [P2] through its
    wildcard. *)
Definition service_pdf (filter : option PluginServiceFilter)
    (unstable : list string) : PluginService :=
  table_service [P1; P2] ["application/pdf"; "*"] true filter unstable [P1].

(** Only the legacy plugin is installed. *)
Definition service_legacy (filter : option PluginServiceFilter)
    (unstable : list string) : PluginService :=
  table_service [P2] ["*"] true filter unstable [].

(** Nothing matches, on a platform without NPAPI support. *)
Definition service_empty : PluginService :=
  table_service [] [] false None [] [].

(** ** The loops *)

(** The availability loop stops at the index [list_find] reports. *)
Lemma first_available_from_find (avail : WebPluginInfo → bool)
    (l : list WebPluginInfo) (i : nat) :
  first_available_from avail l i =
  match list_find (λ p, avail p = true) l with
  | Some (k, _) => i + k
  | None => i + length l
  end.
Proof.
  revert i. induction l as [|p l IH]; intros i; simpl.
  - lia.
  - destruct (avail p) eqn:Hp; case_decide; try congruence.
    + simpl. lia.
    + rewrite IH. destruct (list_find _ l) as [[k q]|]; simpl; lia.
Qed.

Lemma list_find_lt {A} (P : A → Prop) `{∀ x, Decision (P x)}
    (l : list A) (i : nat) (x : A) :
  list_find P l = Some (i, x) → i < length l.
Proof.
  intros (Hi & _ & _)%list_find_Some. by eapply lookup_lt_Some.
Qed.

Lemma unavailable_find (avail : WebPluginInfo → bool) (l : list WebPluginInfo) :
  Forall (λ p, avail p = false) l ↔ list_find (λ p, avail p = true) l = None.
Proof.
  rewrite list_find_None. apply Forall_proper; [|done].
  intros p. by destruct (avail p).
Qed.

Lemma pepper_mime_type_listed_elem_of (mime : string) (l : list string) :
  pepper_mime_type_listed mime l = true ↔ mime ∈ l.
Proof.
  induction l as [|m l IH]; simpl.
  - split; [done|]. by intros ?%elem_of_nil.
  - rewrite elem_of_cons. destruct (String.eqb_spec m mime) as [->|Hne].
    + split; [by left|done].
    + rewrite IH. split; [by right|]. intros [Heq|?]; [congruence|done].
Qed.

Lemma scan_mime_types_find (mime : string) (l : list WebPluginMimeType) :
  scan_mime_types mime l =
  List.find (λ m, String.eqb (content.mime_type m) mime) l.
Proof.
  induction l as [|m l IH]; simpl; [done|].
  by destruct (String.eqb _ _).
Qed.

(** The two nested loops visit the associations plugin by plugin, each
    plugin's in its own order. *)
Lemma scan_plugins_find (mime : string) (l : list WebPluginInfo) :
  scan_plugins mime l =
  List.find (λ m, String.eqb (content.mime_type m) mime)
    (concat (map mime_types l)).
Proof.
  induction l as [|p l IH]; simpl; [done|].
  rewrite scan_mime_types_find, IH.
  induction (mime_types p) as [|m ms IHm]; simpl; [done|].
  by destruct (String.eqb _ _).
Qed.

Lemma scan_mime_types_none (mime : string) (l : list WebPluginMimeType) :
  (∀ m, m ∈ l → content.mime_type m ≠ mime) → scan_mime_types mime l = None.
Proof.
  induction l as [|m l IH]; simpl; intros Hl; [done|].
  destruct (String.eqb_spec (content.mime_type m) mime) as [He|_].
  - destruct (Hl m); [left|done].
  - apply IH. intros m' Hm'. apply Hl. by right.
Qed.

Lemma scan_mime_types_first (mime : string) (pre post : list WebPluginMimeType)
    (m : WebPluginMimeType) :
  (∀ m', m' ∈ pre → content.mime_type m' ≠ mime) →
  content.mime_type m = mime →
  scan_mime_types mime (pre ++ m :: post) = Some m.
Proof.
  induction pre as [|m' pre IH]; simpl; intros Hpre Hm.
  - by rewrite (proj2 (String.eqb_eq _ _) Hm).
  - destruct (String.eqb_spec (content.mime_type m') mime) as [He|_].
    + destruct (Hpre m'); [left|done].
    + apply IH; [|done]. intros ??. apply Hpre. by right.
Qed.

Lemma scan_plugins_none (mime : string) (l : list WebPluginInfo) :
  (∀ p m, p ∈ l → m ∈ mime_types p → content.mime_type m ≠ mime) →
  scan_plugins mime l = None.
Proof.
  induction l as [|p l IH]; simpl; intros Hl; [done|].
  rewrite scan_mime_types_none.
  - apply IH. intros q m Hq. apply Hl. by right.
  - intros m. apply Hl. left.
Qed.

Lemma scan_plugins_first (mime : string) (pre post : list WebPluginInfo)
    (p : WebPluginInfo) (m : WebPluginMimeType) :
  (∀ q m', q ∈ pre → m' ∈ mime_types q → content.mime_type m' ≠ mime) →
  scan_mime_types mime (mime_types p) = Some m →
  scan_plugins mime (pre ++ p :: post) = Some m.
Proof.
  induction pre as [|q pre IH]; simpl; intros Hpre Hp.
  - by rewrite Hp.
  - rewrite scan_mime_types_none.
    + apply IH; [|done]. intros q' m' Hq'. apply Hpre. by right.
    + intros m'. apply Hpre. left.
Qed.

(** ** Candidate selection and the trust decision *)

Section Resolution.

Variable service : PluginService.
Variable webview : WebViewRendererState.
Variable os_win_or_macosx : bool.
Variable context_ : PluginInfoMessageFilter_Context.

Local Abbreviation FindEnabledPlugin := (PluginInfoMessageFilter.FindEnabledPlugin service os_win_or_macosx context_).
Local Abbreviation DecidePluginStatus := (PluginInfoMessageFilter.DecidePluginStatus service webview context_).
Local Abbreviation PluginsLoaded := (PluginInfoMessageFilter.PluginsLoaded service webview os_win_or_macosx context_).
Local Abbreviation plugin_available := (PluginInfoMessageFilter.plugin_available service context_).
Local Abbreviation matching_plugins_of := (PluginInfoMessageFilter.matching_plugins_of service).
Local Abbreviation mime_types_of := (PluginInfoMessageFilter.mime_types_of service).
Local Abbreviation available_for := (PluginInfoMessageFilter.available_for service context_).
Local Abbreviation chosen_index := (PluginInfoMessageFilter.chosen_index service context_).
Local Abbreviation chosen_plugin := (PluginInfoMessageFilter.chosen_plugin service context_).
Local Abbreviation is_guest := (PluginInfoMessageFilter.is_guest webview context_).

Implicit Types (params : GetPluginInfo_Params) (p : WebPluginInfo).
Implicit Types (out : ChromeViewHostMsg_GetPluginInfo_Output).

Lemma matcher_vectors params :
  GetPluginInfoArray service (url params) (mime_type params) true =
  (matching_plugins_of params, mime_types_of params).
Proof. unfold PluginInfoMessageFilter.matching_plugins_of, PluginInfoMessageFilter.mime_types_of. by destruct (GetPluginInfoArray _ _ _ _). Qed.

(** No candidate: [kNotFound], whatever the platform and the MIME type, and
    neither [plugin] nor [actual_mime_type] is written. *)
Lemma FindEnabledPlugin_empty params out :
  matching_plugins_of params = [] →
  FindEnabledPlugin (render_frame_id params) (url params)
    (top_origin_url params) (mime_type params) out =
  Some (false, {| status := kNotFound; plugin := plugin out;
                  actual_mime_type := actual_mime_type out |}).
Proof.
  intros Hnil. unfold PluginInfoMessageFilter.FindEnabledPlugin.
  rewrite matcher_vectors, Hnil. simpl.
  by destruct (_ && _).
Qed.

(** Some candidate is available: the first such one is taken, together with
    the MIME type at its index. *)
Lemma FindEnabledPlugin_enabled params out i p m :
  list_find (λ q, available_for params q = true) (matching_plugins_of params)
    = Some (i, p) →
  mime_types_of params !! i = Some m →
  FindEnabledPlugin (render_frame_id params) (url params)
    (top_origin_url params) (mime_type params) out =
  Some (true, {| status := kAllowed; plugin := Some p; actual_mime_type := m |}).
Proof.
  intros Hfind Hm. unfold PluginInfoMessageFilter.FindEnabledPlugin.
  rewrite matcher_vectors.
  pose proof (list_find_lt _ _ _ _ Hfind) as Hlt.
  destruct (matching_plugins_of params) as [|p0 ps] eqn:Hps; [simpl in Hlt; lia|].
  rewrite first_available_from_find.
  unfold PluginInfoMessageFilter.available_for in Hfind. rewrite Hfind. simpl "+".
  rewrite bool_decide_eq_true_2 by done.
  apply list_find_Some in Hfind as (Hi & _ & _).
  rewrite Hi. simpl. rewrite Hm. done.
Qed.

(** No candidate is available: the first one is taken, with [kDisabled]. *)
Lemma FindEnabledPlugin_disabled params out p0 ps m :
  matching_plugins_of params = p0 :: ps →
  Forall (λ q, available_for params q = false) (p0 :: ps) →
  mime_types_of params !! 0 = Some m →
  FindEnabledPlugin (render_frame_id params) (url params)
    (top_origin_url params) (mime_type params) out =
  Some (false, {| status := kDisabled; plugin := Some p0; actual_mime_type := m |}).
Proof.
  intros Hps Hall Hm. unfold PluginInfoMessageFilter.FindEnabledPlugin.
  rewrite matcher_vectors, Hps.
  rewrite first_available_from_find.
  apply unavailable_find in Hall. unfold PluginInfoMessageFilter.available_for in Hall.
  rewrite Hall. simpl "+".
  rewrite bool_decide_eq_false_2 by (simpl; lia).
  simpl. rewrite Hm. done.
Qed.

(** The value [status] holds on entry is never read. *)
Lemma FindEnabledPlugin_initial_status rfid (u t : GURL) (mime : string) out s :
  FindEnabledPlugin rfid u t mime (set_status out s) =
  FindEnabledPlugin rfid u t mime out.
Proof. done. Qed.

(** The request falls in exactly one of three cases of the selection. *)
Lemma selection_cases params :
  matching_plugins_of params = []
  ∨ (∃ i p, list_find (λ q, available_for params q = true)
              (matching_plugins_of params) = Some (i, p))
  ∨ (∃ p0 ps, matching_plugins_of params = p0 :: ps
              ∧ Forall (λ q, available_for params q = false) (p0 :: ps)).
Proof.
  destruct (matching_plugins_of params) as [|p0 ps] eqn:Hps; [by left|right].
  destruct (list_find (λ q, available_for params q = true) (p0 :: ps))
    as [[i p]|] eqn:Hfind.
  - left. eauto.
  - right. exists p0, ps. split; [done|]. by apply unavailable_find.
Qed.

Lemma chosen_index_enabled params i p :
  list_find (λ q, available_for params q = true) (matching_plugins_of params)
    = Some (i, p) →
  chosen_index params = i ∧ chosen_plugin params = Some p
  ∧ available_for params p = true.
Proof.
  intros Hfind. pose proof (list_find_lt _ _ _ _ Hfind) as Hlt.
  unfold PluginInfoMessageFilter.chosen_plugin, PluginInfoMessageFilter.chosen_index.
  rewrite first_available_from_find, Hfind. simpl "+".
  rewrite bool_decide_eq_true_2 by done.
  by apply list_find_Some in Hfind as (Hi & Hp & _).
Qed.

Lemma chosen_index_disabled params p0 ps :
  matching_plugins_of params = p0 :: ps →
  Forall (λ q, available_for params q = false) (p0 :: ps) →
  chosen_index params = 0 ∧ chosen_plugin params = Some p0
  ∧ available_for params p0 = false.
Proof.
  intros Hps Hall.
  unfold PluginInfoMessageFilter.chosen_plugin, PluginInfoMessageFilter.chosen_index.
  rewrite first_available_from_find, Hps.
  rewrite (proj1 (unavailable_find _ _) Hall). simpl "+".
  rewrite bool_decide_eq_false_2 by (simpl; lia).
  split_and!; [done..|]. by inversion Hall.
Qed.

(** An available chosen candidate is the first available one. *)
Lemma chosen_available_find params p :
  chosen_plugin params = Some p →
  available_for params p = true →
  list_find (λ q, available_for params q = true) (matching_plugins_of params)
    = Some (chosen_index params, p).
Proof.
  intros Hp Hav.
  destruct (selection_cases params) as [Hnil|[(i & q & Hfind)|(p0 & ps & Hps & Hall)]].
  - unfold PluginInfoMessageFilter.chosen_plugin in Hp. by rewrite Hnil in Hp.
  - destruct (chosen_index_enabled _ _ _ Hfind) as (-> & Hq & _).
    rewrite Hfind. congruence.
  - destruct (chosen_index_disabled _ _ _ Hps Hall) as (_ & Hq & Hno).
    congruence.
Qed.

(** An unavailable chosen candidate means every candidate was rejected. *)
Lemma chosen_unavailable_all params p :
  chosen_plugin params = Some p →
  available_for params p = false →
  ∃ ps, matching_plugins_of params = p :: ps
        ∧ Forall (λ q, available_for params q = false) (p :: ps).
Proof.
  intros Hp Hav.
  destruct (selection_cases params) as [Hnil|[(i & q & Hfind)|(p0 & ps & Hps & Hall)]].
  - unfold PluginInfoMessageFilter.chosen_plugin in Hp. by rewrite Hnil in Hp.
  - destruct (chosen_index_enabled _ _ _ Hfind) as (_ & Hq & Hyes). congruence.
  - destruct (chosen_index_disabled _ _ _ Hps Hall) as (_ & Hq & _).
    assert (p0 = p) as -> by congruence. eauto.
Qed.

(** With parallel vectors, the MIME vector has an entry wherever the plugin
    vector has one. *)
Lemma parallel_lookup params i p :
  length (mime_types_of params) = length (matching_plugins_of params) →
  matching_plugins_of params !! i = Some p →
  ∃ m, mime_types_of params !! i = Some m.
Proof.
  intros Hlen Hp%lookup_lt_Some.
  apply lookup_lt_is_Some. lia.
Qed.

Lemma PluginsLoaded_empty params :
  matching_plugins_of params = [] →
  PluginsLoaded params =
  Some {| status := kNotFound; plugin := None; actual_mime_type := EmptyString |}.
Proof.
  intros Hnil. unfold PluginInfoMessageFilter.PluginsLoaded.
  by rewrite (FindEnabledPlugin_empty _ _ Hnil).
Qed.

Lemma PluginsLoaded_enabled params i p m :
  list_find (λ q, available_for params q = true) (matching_plugins_of params)
    = Some (i, p) →
  mime_types_of params !! i = Some m →
  PluginsLoaded params =
  Some {| status := DecidePluginStatus params p kAllowed;
          plugin := Some p; actual_mime_type := m |}.
Proof.
  intros Hfind Hm. unfold PluginInfoMessageFilter.PluginsLoaded.
  by rewrite (FindEnabledPlugin_enabled _ _ _ _ _ Hfind Hm).
Qed.

Lemma PluginsLoaded_disabled params p0 ps m :
  matching_plugins_of params = p0 :: ps →
  Forall (λ q, available_for params q = false) (p0 :: ps) →
  mime_types_of params !! 0 = Some m →
  PluginsLoaded params =
  Some {| status := kDisabled; plugin := Some p0; actual_mime_type := m |}.
Proof.
  intros Hps Hall Hm. unfold PluginInfoMessageFilter.PluginsLoaded.
  by rewrite (FindEnabledPlugin_disabled _ _ _ _ _ Hps Hall Hm).
Qed.

(** [FindEnabledPlugin] returns [true] exactly when it leaves [kAllowed]. *)
Lemma FindEnabledPlugin_enabled_iff rfid (u t : GURL) (mime : string) out
    (enabled : bool) out' :
  FindEnabledPlugin rfid u t mime out = Some (enabled, out') →
  enabled = true ↔ status out' = kAllowed.
Proof.
  unfold PluginInfoMessageFilter.FindEnabledPlugin.
  destruct (GetPluginInfoArray _ _ _ _) as [[|p0 ps] ms].
  - destruct (_ && _); intros [= <- <-]; simpl; split; discriminate.
  - destruct (bool_decide _); simpl; intros Hret;
      simplify_option_eq; split; done.
Qed.

(** A selection that returns [true] has written [plugin], so the read of
    [output.plugin] in [PluginsLoaded] finds a candidate there. *)
Lemma FindEnabledPlugin_true_plugin rfid (u t : GURL) (mime : string) out out' :
  FindEnabledPlugin rfid u t mime out = Some (true, out') →
  is_Some (plugin out').
Proof.
  unfold PluginInfoMessageFilter.FindEnabledPlugin.
  destruct (GetPluginInfoArray _ _ _ _) as [[|p0 ps] ms].
  - destruct (_ && _); discriminate.
  - destruct (bool_decide _); simpl; intros Hret;
      simplify_option_eq; eauto.
Qed.

(** With parallel vectors every request gets its verdict. *)
Lemma PluginsLoaded_total params :
  length (mime_types_of params) = length (matching_plugins_of params) →
  is_Some (PluginsLoaded params).
Proof.
  intros Hlen.
  destruct (selection_cases params)
    as [Hnil|[(i & p & Hfind)|(p0 & ps & Hps & Hall)]].
  - by rewrite PluginsLoaded_empty.
  - pose proof Hfind as (Hlook & _ & _)%list_find_Some.
    destruct (parallel_lookup _ _ _ Hlen Hlook) as [m Hm].
    by rewrite (PluginsLoaded_enabled _ _ _ _ Hfind Hm).
  - destruct (parallel_lookup params 0 p0 Hlen) as [m Hm]; [by rewrite Hps|].
    by rewrite (PluginsLoaded_disabled _ _ _ _ Hps Hall Hm).
Qed.

(** *** The branches of [DecidePluginStatus] *)

Lemma DecidePluginStatus_legacy_guest params p s :
  type p = PLUGIN_TYPE_NPAPI → is_guest = true →
  DecidePluginStatus params p s = kNPAPINotSupported.
Proof.
  unfold PluginInfoMessageFilter.DecidePluginStatus, PluginInfoMessageFilter.is_guest.
  intros -> ->. done.
Qed.

Lemma DecidePluginStatus_unstable params p s :
  ¬ (type p = PLUGIN_TYPE_NPAPI ∧ is_guest = true) →
  IsPluginUnstable service (path p) = true →
  DecidePluginStatus params p s = kUnauthorized.
Proof.
  unfold PluginInfoMessageFilter.DecidePluginStatus, PluginInfoMessageFilter.is_guest.
  intros Hno ->. case_bool_decide; [|done].
  destruct (IsGuest _ _); [|done]. by destruct Hno.
Qed.

Lemma DecidePluginStatus_standard_guest params p :
  type p ≠ PLUGIN_TYPE_NPAPI → is_guest = true →
  DecidePluginStatus params p kAllowed = kUnauthorized.
Proof.
  unfold PluginInfoMessageFilter.DecidePluginStatus, PluginInfoMessageFilter.is_guest.
  intros Hty ->. rewrite bool_decide_eq_false_2 by done. simpl.
  by destruct (IsPluginUnstable _ _).
Qed.

Lemma DecidePluginStatus_stable_page params p s :
  is_guest = false → IsPluginUnstable service (path p) = false →
  DecidePluginStatus params p s = s.
Proof.
  unfold PluginInfoMessageFilter.DecidePluginStatus, PluginInfoMessageFilter.is_guest.
  intros -> ->. rewrite andb_false_r. by case_bool_decide.
Qed.

Lemma DecidePluginStatus_no_upgrade params p s :
  DecidePluginStatus params p s = kAllowed → s = kAllowed.
Proof.
  unfold PluginInfoMessageFilter.DecidePluginStatus.
  destruct (_ && _); [discriminate|].
  destruct (IsPluginUnstable _ _); [discriminate|].
  case_bool_decide; [done|]. done.
Qed.

(** ** The claims about [resolve], that is, [PluginsLoaded] *)

(** C1, amended.  When the chosen candidate is of the legacy in-process type
    [PLUGIN_TYPE_NPAPI] and the requester is a <webview> guest, the status is
    [kNPAPINotSupported] if the candidate passed the availability filter,
    whatever the instability tracker says of it, and [kDisabled] if the filter
    rejected every candidate.  It is [kUnauthorized] in neither case. *)
Theorem legacy_in_guest_not_supported params p :
  length (mime_types_of params) = length (matching_plugins_of params) →
  chosen_plugin params = Some p →
  type p = PLUGIN_TYPE_NPAPI →
  is_guest = true →
  status <$> PluginsLoaded params =
  Some (if available_for params p then kNPAPINotSupported else kDisabled).
Proof.
  intros Hlen Hp Hty Hguest.
  destruct (available_for params p) eqn:Hav.
  - pose proof (chosen_available_find _ _ Hp Hav) as Hfind.
    destruct (parallel_lookup _ _ _ Hlen Hp) as [m Hm].
    rewrite (PluginsLoaded_enabled _ _ _ _ Hfind Hm). simpl.
    by rewrite DecidePluginStatus_legacy_guest.
  - destruct (chosen_unavailable_all _ _ Hp Hav) as (ps & Hps & Hall).
    destruct (parallel_lookup params 0 p Hlen) as [m Hm]; [by rewrite Hps|].
    by rewrite (PluginsLoaded_disabled _ _ _ _ Hps Hall Hm).
Qed.

(** C2, amended.  With parallel matcher vectors a verdict is always produced,
    and in it: [kAllowed] comes with a plugin that is a candidate and passed
    the availability filter; [kNotFound] comes with no plugin and an empty
    actual MIME type; [kNPAPINotSupported] comes with a plugin, a legacy-type
    candidate that passed the filter, requested by a guest. *)
Theorem verdict_plugin_presence params :
  length (mime_types_of params) = length (matching_plugins_of params) →
  ∃ out, PluginsLoaded params = Some out
    ∧ (status out = kAllowed →
       ∃ i p, plugin out = Some p
         ∧ matching_plugins_of params !! i = Some p
         ∧ available_for params p = true)
    ∧ (status out = kNotFound →
       plugin out = None ∧ actual_mime_type out = EmptyString
       ∧ matching_plugins_of params = [])
    ∧ (status out = kNPAPINotSupported →
       ∃ p, plugin out = Some p
         ∧ chosen_plugin params = Some p
         ∧ available_for params p = true
         ∧ type p = PLUGIN_TYPE_NPAPI
         ∧ is_guest = true).
Proof.
  intros Hlen.
  destruct (selection_cases params)
    as [Hnil|[(i & p & Hfind)|(p0 & ps & Hps & Hall)]].
  - eexists. split; [by apply PluginsLoaded_empty|]. simpl.
    split_and!; done.
  - destruct (chosen_index_enabled _ _ _ Hfind) as (Hi & Hp & Hav).
    pose proof Hfind as (Hlook & _ & _)%list_find_Some.
    destruct (parallel_lookup _ _ _ Hlen Hlook) as [m Hm].
    eexists. split; [by apply (PluginsLoaded_enabled _ _ _ _ Hfind Hm)|]. simpl.
    split_and!.
    + eauto.
    + unfold PluginInfoMessageFilter.DecidePluginStatus.
      destruct (_ && _); [discriminate|].
      destruct (IsPluginUnstable _ _); [discriminate|].
      simpl. by destruct (IsGuest _ _).
    + unfold PluginInfoMessageFilter.DecidePluginStatus, PluginInfoMessageFilter.is_guest.
      case_bool_decide as Hty; simpl.
      * destruct (IsGuest _ _) eqn:Hg; [intros _; eauto 10|].
        destruct (IsPluginUnstable _ _); discriminate.
      * destruct (IsPluginUnstable _ _); [discriminate|].
        by destruct (IsGuest _ _).
  - destruct (parallel_lookup params 0 p0 Hlen) as [m Hm]; [by rewrite Hps|].
    eexists. split; [by apply (PluginsLoaded_disabled _ _ _ _ Hps Hall Hm)|].
    simpl. split_and!; discriminate.
Qed.

(** C3, amended.  When the candidate matcher returns no candidate, the
    verdict has no plugin, an empty actual MIME type and status [kNotFound],
    on every platform and for every MIME type, those of
    [kPepperPluginMimeTypes] included; it is never [kNPAPINotSupported]. *)
Theorem no_candidate_not_found params :
  matching_plugins_of params = [] →
  PluginsLoaded params =
    Some {| status := kNotFound; plugin := None; actual_mime_type := EmptyString |}
  ∧ status <$> PluginsLoaded params ≠ Some kNPAPINotSupported.
Proof.
  intros Hnil. rewrite (PluginsLoaded_empty _ Hnil). by split.
Qed.

(** C4.  With at least one candidate and every candidate rejected by the
    availability filter, the verdict carries the first candidate of the
    matcher's enumeration, and status [kDisabled]. *)
Theorem all_rejected_first_disabled params p0 ps :
  matching_plugins_of params = p0 :: ps →
  Forall (λ q, available_for params q = false) (p0 :: ps) →
  length (mime_types_of params) = length (matching_plugins_of params) →
  ∃ m0, mime_types_of params !! 0 = Some m0
    ∧ PluginsLoaded params =
      Some {| status := kDisabled; plugin := Some p0; actual_mime_type := m0 |}.
Proof.
  intros Hps Hall Hlen.
  destruct (parallel_lookup params 0 p0 Hlen) as [m Hm]; [by rewrite Hps|].
  exists m. split; [done|]. by apply PluginsLoaded_disabled with ps.
Qed.

(** C5, amended.  When the chosen candidate passed the availability filter
    and the instability tracker flags its path, the status is
    [kUnauthorized], unless the candidate is of the legacy type and the
    requester is a guest. *)
Theorem unstable_unauthorized params p :
  length (mime_types_of params) = length (matching_plugins_of params) →
  chosen_plugin params = Some p →
  available_for params p = true →
  IsPluginUnstable service (path p) = true →
  ¬ (type p = PLUGIN_TYPE_NPAPI ∧ is_guest = true) →
  status <$> PluginsLoaded params = Some kUnauthorized.
Proof.
  intros Hlen Hp Hav Hun Hno.
  pose proof (chosen_available_find _ _ Hp Hav) as Hfind.
  destruct (parallel_lookup _ _ _ Hlen Hp) as [m Hm].
  rewrite (PluginsLoaded_enabled _ _ _ _ Hfind Hm). simpl.
  by rewrite DecidePluginStatus_unstable.
Qed.

(** C6, amended.  When the chosen candidate passed the availability filter
    and is not of the legacy in-process type, and the requester is a guest,
    the status is [kUnauthorized], whether or not the candidate is flagged
    unstable. *)
Theorem guest_standard_unauthorized params p :
  length (mime_types_of params) = length (matching_plugins_of params) →
  chosen_plugin params = Some p →
  available_for params p = true →
  type p ≠ PLUGIN_TYPE_NPAPI →
  is_guest = true →
  status <$> PluginsLoaded params = Some kUnauthorized.
Proof.
  intros Hlen Hp Hav Hty Hguest.
  pose proof (chosen_available_find _ _ Hp Hav) as Hfind.
  destruct (parallel_lookup _ _ _ Hlen Hp) as [m Hm].
  rewrite (PluginsLoaded_enabled _ _ _ _ Hfind Hm). simpl.
  by rewrite DecidePluginStatus_standard_guest.
Qed.

(** An absent filter makes every plugin available. *)
Lemma available_without_filter params p :
  GetFilter service = None → available_for params p = true.
Proof.
  unfold PluginInfoMessageFilter.available_for, PluginInfoMessageFilter.plugin_available.
  by intros ->.
Qed.

Lemma first_candidate_found params p0 ps :
  matching_plugins_of params = p0 :: ps →
  available_for params p0 = true →
  list_find (λ q, available_for params q = true) (matching_plugins_of params)
    = Some (0, p0).
Proof.
  intros -> Hav. simpl. by rewrite decide_True.
Qed.

(** C7.  With at least one candidate, the first of them accepted by the
    availability filter (or no filter installed), a requester that is not a
    guest and a first candidate that is not flagged unstable, the verdict
    carries that first candidate and status [kAllowed]. *)
Theorem first_available_allowed params p0 ps :
  matching_plugins_of params = p0 :: ps →
  GetFilter service = None ∨ available_for params p0 = true →
  is_guest = false →
  IsPluginUnstable service (path p0) = false →
  length (mime_types_of params) = length (matching_plugins_of params) →
  ∃ m0, mime_types_of params !! 0 = Some m0
    ∧ PluginsLoaded params =
      Some {| status := kAllowed; plugin := Some p0; actual_mime_type := m0 |}.
Proof.
  intros Hps Hfilter Hguest Hstable Hlen.
  assert (available_for params p0 = true) as Hav.
  { destruct Hfilter as [Hnone|Hyes]; [|done].
    by apply available_without_filter. }
  pose proof (first_candidate_found _ _ _ Hps Hav) as Hfind.
  destruct (parallel_lookup params 0 p0 Hlen) as [m Hm]; [by rewrite Hps|].
  exists m. split; [done|].
  rewrite (PluginsLoaded_enabled _ _ _ _ Hfind Hm).
  by rewrite DecidePluginStatus_stable_page.
Qed.

(** C8.  [DecidePluginStatus] never turns another status into [kAllowed];
    [PluginsLoaded] runs it only on a selection that returned with
    [kAllowed], and hands on any other selection status unchanged; so a
    request whose candidates were all rejected ends with [kDisabled],
    whatever the instability tracker and the guest registry answer. *)
Theorem downgrades_only_from_allowed params :
  (∀ p s, DecidePluginStatus params p s = kAllowed → s = kAllowed)
  ∧ (∀ (enabled : bool) out,
       FindEnabledPlugin (render_frame_id params) (url params)
         (top_origin_url params) (mime_type params) Output_new
         = Some (enabled, out) →
       (enabled = true ↔ status out = kAllowed)
       ∧ (status out ≠ kAllowed → PluginsLoaded params = Some out)
       ∧ (∀ out', PluginsLoaded params = Some out' →
            status out' = kAllowed → status out = kAllowed))
  ∧ (∀ p0 ps,
       matching_plugins_of params = p0 :: ps →
       Forall (λ q, available_for params q = false) (p0 :: ps) →
       length (mime_types_of params) = length (matching_plugins_of params) →
       status <$> PluginsLoaded params = Some kDisabled).
Proof.
  split_and!.
  - intros p s. apply DecidePluginStatus_no_upgrade.
  - intros enabled out Hfind.
    pose proof (FindEnabledPlugin_enabled_iff _ _ _ _ _ _ _ Hfind) as Hiff.
    split_and!; [done| |].
    + intros Hne. unfold PluginInfoMessageFilter.PluginsLoaded.
      rewrite Hfind. simpl. destruct enabled; [|done].
      destruct Hne. by apply Hiff.
    + intros out'. unfold PluginInfoMessageFilter.PluginsLoaded.
      rewrite Hfind. simpl. destruct enabled; [intros _ _; by apply Hiff|].
      by intros [= <-].
  - intros p0 ps Hps Hall Hlen.
    destruct (parallel_lookup params 0 p0 Hlen) as [m Hm]; [by rewrite Hps|].
    by rewrite (PluginsLoaded_disabled _ _ _ _ Hps Hall Hm).
Qed.

(** C10.  With at least one candidate, the verdict's plugin and actual MIME
    type are the entries of the matcher's two vectors at one and the same
    index, the index [FindEnabledPlugin] chose: that of the first available
    candidate, or 0 when every candidate was rejected. *)
Theorem verdict_same_index params :
  matching_plugins_of params ≠ [] →
  length (mime_types_of params) = length (matching_plugins_of params) →
  ∃ out i p m,
    PluginsLoaded params = Some out
    ∧ i = chosen_index params
    ∧ matching_plugins_of params !! i = Some p
    ∧ mime_types_of params !! i = Some m
    ∧ plugin out = Some p
    ∧ actual_mime_type out = m
    ∧ ((available_for params p = true
        ∧ ∀ j q, j < i → matching_plugins_of params !! j = Some q →
                 available_for params q = false)
       ∨ (i = 0
          ∧ Forall (λ q, available_for params q = false)
              (matching_plugins_of params))).
Proof.
  intros Hne Hlen.
  destruct (selection_cases params)
    as [Hnil|[(i & p & Hfind)|(p0 & ps & Hps & Hall)]]; [done| |].
  - destruct (chosen_index_enabled _ _ _ Hfind) as (Hi & _ & _).
    pose proof Hfind as (Hlook & Hav & Hleast)%list_find_Some.
    destruct (parallel_lookup _ _ _ Hlen Hlook) as [m Hm].
    eexists _, i, p, m.
    split; [by apply (PluginsLoaded_enabled _ _ _ _ Hfind Hm)|]. simpl.
    split_and!; try done. left. split; [done|].
    intros j q Hj Hq. specialize (Hleast j q Hq Hj).
    by destruct (available_for params q).
  - destruct (chosen_index_disabled _ _ _ Hps Hall) as (Hi & _ & _).
    destruct (parallel_lookup params 0 p0 Hlen) as [m Hm]; [by rewrite Hps|].
    eexists _, 0, p0, m.
    split; [by apply (PluginsLoaded_disabled _ _ _ _ Hps Hall Hm)|]. simpl.
    split_and!; try done.
    + by rewrite Hps.
    + right. by rewrite Hps.
Qed.

End Resolution.

(** ** The internal-plugin query *)

(** On a miss the handler writes [is_available] only: the two vectors keep
    what they held on entry. *)
Lemma OnIsInternalPluginAvailableForMimeType_miss (service : PluginService)
    (mime : string) (reply : InternalPluginReply) :
  scan_plugins mime (GetInternalPlugins service) = None →
  PluginInfoMessageFilter.OnIsInternalPluginAvailableForMimeType service mime reply =
  {| is_available := false;
     additional_param_names := additional_param_names reply;
     additional_param_values := additional_param_values reply |}.
Proof.
  unfold PluginInfoMessageFilter.OnIsInternalPluginAvailableForMimeType.
  by intros ->.
Qed.

(** The reply is read off the first association, in plugin order and then in
    each plugin's own order, whose MIME type equals the requested string. *)
Lemma IsInternalPluginAvailableForMimeType_find (service : PluginService)
    (mime : string) :
  PluginInfoMessageFilter.IsInternalPluginAvailableForMimeType service mime =
  match List.find (λ m, String.eqb (content.mime_type m) mime)
          (concat (map mime_types (GetInternalPlugins service))) with
  | Some m =>
      {| is_available := true;
         additional_param_names := content.additional_param_names m;
         additional_param_values := content.additional_param_values m |}
  | None =>
      {| is_available := false;
         additional_param_names := [];
         additional_param_values := [] |}
  end.
Proof.
  unfold PluginInfoMessageFilter.IsInternalPluginAvailableForMimeType,
    PluginInfoMessageFilter.OnIsInternalPluginAvailableForMimeType.
  by rewrite scan_plugins_find.
Qed.

(** C9.  The internal-plugin query looks at the internal plugins only.  If
    [m] is the first association whose MIME type is the requested string,
    character for character, going through the plugins in order and through
    each plugin's associations in order, the reply is available with the
    parameter names and values of [m]; if no association of any internal
    plugin has that MIME type, the reply is unavailable with empty
    sequences. *)
Theorem internal_plugin_first_match (service : PluginService) (mime : string) :
  (∀ (pre : list WebPluginInfo) p post (mpre : list WebPluginMimeType) m mpost,
     GetInternalPlugins service = (pre ++ p :: post)%list →
     (∀ q m', q ∈ pre → m' ∈ mime_types q → content.mime_type m' ≠ mime) →
     mime_types p = (mpre ++ m :: mpost)%list →
     (∀ m', m' ∈ mpre → content.mime_type m' ≠ mime) →
     content.mime_type m = mime →
     PluginInfoMessageFilter.IsInternalPluginAvailableForMimeType service mime =
     {| is_available := true;
        additional_param_names := content.additional_param_names m;
        additional_param_values := content.additional_param_values m |})
  ∧ ((∀ q m', q ∈ GetInternalPlugins service → m' ∈ mime_types q →
              content.mime_type m' ≠ mime) →
     PluginInfoMessageFilter.IsInternalPluginAvailableForMimeType service mime =
     {| is_available := false;
        additional_param_names := [];
        additional_param_values := [] |})
  ∧ (∀ service',
       GetInternalPlugins service' = GetInternalPlugins service →
       PluginInfoMessageFilter.IsInternalPluginAvailableForMimeType service' mime =
       PluginInfoMessageFilter.IsInternalPluginAvailableForMimeType service mime).
Proof.
  split_and!.
  - intros pre p post mpre m mpost Hplugins Hpre Hmimes Hmpre Hm.
    unfold PluginInfoMessageFilter.IsInternalPluginAvailableForMimeType,
      PluginInfoMessageFilter.OnIsInternalPluginAvailableForMimeType.
    rewrite Hplugins, (scan_plugins_first mime pre post p m); [done..|].
    rewrite Hmimes. by apply scan_mime_types_first.
  - intros Hnone.
    unfold PluginInfoMessageFilter.IsInternalPluginAvailableForMimeType.
    rewrite OnIsInternalPluginAvailableForMimeType_miss; [done|].
    apply scan_plugins_none. intros q m'. apply Hnone.
  - intros service' Heq.
    unfold PluginInfoMessageFilter.IsInternalPluginAvailableForMimeType,
      PluginInfoMessageFilter.OnIsInternalPluginAvailableForMimeType.
    by rewrite Heq.
Qed.

(** ** The scenarios of the spec, evaluated *)

Example scenario_pdf_on_page :
  PluginInfoMessageFilter.PluginsLoaded (service_pdf None []) guest7 true
    context_page request_pdf =
  Some {| status := kAllowed; plugin := Some P1;
          actual_mime_type := "application/pdf" |}.
Proof. reflexivity. Qed.

Example scenario_pdf_in_guest :
  PluginInfoMessageFilter.PluginsLoaded (service_pdf None []) guest7 true
    context_guest request_pdf =
  Some {| status := kUnauthorized; plugin := Some P1;
          actual_mime_type := "application/pdf" |}.
Proof. reflexivity. Qed.

Example scenario_legacy_on_page :
  PluginInfoMessageFilter.PluginsLoaded (service_legacy None []) guest7 true
    context_page request_mp4 =
  Some {| status := kAllowed; plugin := Some P2; actual_mime_type := "*" |}.
Proof. reflexivity. Qed.

Example scenario_legacy_unstable_on_page :
  PluginInfoMessageFilter.PluginsLoaded
    (service_legacy None ["/plugins/legacy"]) guest7 true
    context_page request_mp4 =
  Some {| status := kUnauthorized; plugin := Some P2; actual_mime_type := "*" |}.
Proof. reflexivity. Qed.

(** A MIME vector shorter than the plugin vector makes the read of
    [mime_types[i]] fall outside it. *)
Example short_mime_vector_undefined :
  PluginInfoMessageFilter.PluginsLoaded
    (table_service [P1; P2] ["application/pdf"] true
       (Some (accept_only "/plugins/legacy")) [] [])
    guest7 true context_page request_pdf = None.
Proof. reflexivity. Qed.

(** The comparison of MIME types is exact: a different capitalisation does
    not match. *)
Example internal_query_is_case_sensitive :
  is_available
    (PluginInfoMessageFilter.IsInternalPluginAvailableForMimeType
       (service_pdf None []) "Application/PDF") = false.
Proof. reflexivity. Qed.

(** ** Instances of the theorems and inputs refuting the claims as stated *)

Lemma legacy_in_guest_not_supported_witness :
  status <$> PluginInfoMessageFilter.PluginsLoaded
    (service_legacy None ["/plugins/legacy"]) guest7 true
    context_guest request_mp4 = Some kNPAPINotSupported.
Proof.
  apply (legacy_in_guest_not_supported
           (service_legacy None ["/plugins/legacy"]) guest7 true
           context_guest request_mp4 P2); reflexivity.
Defined.

(** C1 as stated fails: a legacy-type candidate that passed the filter,
    requested by a guest, is answered [kNPAPINotSupported]. *)
Lemma legacy_in_guest_counterexample :
  PluginInfoMessageFilter.chosen_plugin
    (service_legacy (Some (accept_only "/plugins/legacy")) [])
    context_guest request_mp4 = Some P2
  ∧ type P2 = PLUGIN_TYPE_NPAPI
  ∧ PluginInfoMessageFilter.is_guest guest7 context_guest = true
  ∧ status <$> PluginInfoMessageFilter.PluginsLoaded
      (service_legacy (Some (accept_only "/plugins/legacy")) [])
      guest7 true context_guest request_mp4 = Some kNPAPINotSupported
  ∧ status <$> PluginInfoMessageFilter.PluginsLoaded
      (service_legacy (Some (accept_only "/plugins/legacy")) [])
      guest7 true context_guest request_mp4 ≠ Some kUnauthorized.
Proof. split_and!; [reflexivity..|discriminate]. Qed.

Lemma verdict_plugin_presence_witness :
  ∃ out,
    PluginInfoMessageFilter.PluginsLoaded (service_pdf None []) guest7 true
      context_page request_pdf = Some out
    ∧ (status out = kAllowed →
       ∃ i p, plugin out = Some p
         ∧ PluginInfoMessageFilter.matching_plugins_of (service_pdf None [])
             request_pdf !! i = Some p
         ∧ PluginInfoMessageFilter.available_for (service_pdf None [])
             context_page request_pdf p = true).
Proof.
  destruct (verdict_plugin_presence (service_pdf None []) guest7 true
              context_page request_pdf) as (out & Hout & Hallowed & _).
  - reflexivity.
  - exists out. split; [exact Hout|exact Hallowed].
Defined.

(** C2 as stated fails: a verdict with [kNPAPINotSupported] that carries a
    plugin and its MIME type. *)
Lemma verdict_plugin_presence_counterexample :
  PluginInfoMessageFilter.PluginsLoaded
    (service_pdf (Some (accept_only "/plugins/legacy")) [])
    guest7 true context_guest request_pdf =
  Some {| status := kNPAPINotSupported; plugin := Some P2;
          actual_mime_type := "*" |}
  ∧ Some P2 ≠ None
  ∧ "*" ≠ EmptyString.
Proof. split_and!; [reflexivity|discriminate..]. Qed.

Lemma no_candidate_not_found_witness :
  PluginInfoMessageFilter.PluginsLoaded service_empty guest7 true
    context_page request_pdf =
    Some {| status := kNotFound; plugin := None; actual_mime_type := EmptyString |}
  ∧ status <$> PluginInfoMessageFilter.PluginsLoaded service_empty guest7 true
      context_page request_pdf ≠ Some kNPAPINotSupported.
Proof.
  apply (no_candidate_not_found service_empty guest7 true context_page
           request_pdf).
  reflexivity.
Defined.

(** C3 as stated fails: no candidate, a build for Windows or macOS, no NPAPI
    support, and a MIME type of [kPepperPluginMimeTypes]; the status is
    [kNotFound]. *)
Lemma no_candidate_counterexample :
  PluginInfoMessageFilter.matching_plugins_of service_empty request_pdf = []
  ∧ NPAPIPluginsSupported service_empty = false
  ∧ pepper_mime_type_listed (mime_type request_pdf) kPepperPluginMimeTypes = true
  ∧ status <$> PluginInfoMessageFilter.PluginsLoaded service_empty guest7 true
      context_page request_pdf = Some kNotFound
  ∧ status <$> PluginInfoMessageFilter.PluginsLoaded service_empty guest7 true
      context_page request_pdf ≠ Some kNPAPINotSupported.
Proof. split_and!; [reflexivity..|discriminate]. Qed.

Lemma all_rejected_first_disabled_witness :
  ∃ m0,
    PluginInfoMessageFilter.mime_types_of (service_pdf (Some reject_all) [])
      request_pdf !! 0 = Some m0
    ∧ PluginInfoMessageFilter.PluginsLoaded (service_pdf (Some reject_all) [])
        guest7 true context_page request_pdf =
      Some {| status := kDisabled; plugin := Some P1; actual_mime_type := m0 |}.
Proof.
  apply (all_rejected_first_disabled (service_pdf (Some reject_all) []) guest7
           true context_page request_pdf P1 [P2]).
  - reflexivity.
  - repeat constructor.
  - reflexivity.
Defined.

Lemma unstable_unauthorized_witness :
  status <$> PluginInfoMessageFilter.PluginsLoaded
    (service_legacy None ["/plugins/legacy"]) guest7 true
    context_page request_mp4 = Some kUnauthorized.
Proof.
  apply (unstable_unauthorized (service_legacy None ["/plugins/legacy"])
           guest7 true context_page request_mp4 P2).
  - reflexivity.
  - reflexivity.
  - reflexivity.
  - reflexivity.
  - intros [_ Hguest]. discriminate Hguest.
Defined.

(** C5 as stated fails: the chosen candidate is flagged unstable, yet the
    status is [kNPAPINotSupported], the candidate being of the legacy type
    and the requester a guest. *)
Lemma unstable_counterexample :
  PluginInfoMessageFilter.chosen_plugin
    (service_legacy None ["/plugins/legacy"]) context_guest request_mp4
    = Some P2
  ∧ IsPluginUnstable (service_legacy None ["/plugins/legacy"]) (path P2) = true
  ∧ status <$> PluginInfoMessageFilter.PluginsLoaded
      (service_legacy None ["/plugins/legacy"]) guest7 true
      context_guest request_mp4 = Some kNPAPINotSupported
  ∧ status <$> PluginInfoMessageFilter.PluginsLoaded
      (service_legacy None ["/plugins/legacy"]) guest7 true
      context_guest request_mp4 ≠ Some kUnauthorized.
Proof. split_and!; [reflexivity..|discriminate]. Qed.

Lemma guest_standard_unauthorized_witness :
  status <$> PluginInfoMessageFilter.PluginsLoaded (service_pdf None [])
    guest7 true context_guest request_pdf = Some kUnauthorized.
Proof.
  apply (guest_standard_unauthorized (service_pdf None []) guest7 true
           context_guest request_pdf P1).
  - reflexivity.
  - reflexivity.
  - reflexivity.
  - discriminate.
  - reflexivity.
Defined.

(** C6 as stated fails: the chosen candidate passed the filter and is not
    flagged unstable, the requester is a guest, and the status is
    [kNPAPINotSupported], the candidate being of the legacy type. *)
Lemma guest_counterexample :
  PluginInfoMessageFilter.chosen_plugin (service_legacy None [])
    context_guest request_mp4 = Some P2
  ∧ PluginInfoMessageFilter.available_for (service_legacy None [])
      context_guest request_mp4 P2 = true
  ∧ (type P2 ≠ PLUGIN_TYPE_NPAPI
     ∨ IsPluginUnstable (service_legacy None []) (path P2) = false)
  ∧ PluginInfoMessageFilter.is_guest guest7 context_guest = true
  ∧ status <$> PluginInfoMessageFilter.PluginsLoaded (service_legacy None [])
      guest7 true context_guest request_mp4 = Some kNPAPINotSupported
  ∧ status <$> PluginInfoMessageFilter.PluginsLoaded (service_legacy None [])
      guest7 true context_guest request_mp4 ≠ Some kUnauthorized.
Proof.
  split_and!; [reflexivity|reflexivity|by right|reflexivity|reflexivity|discriminate].
Qed.

Lemma first_available_allowed_witness :
  ∃ m0,
    PluginInfoMessageFilter.mime_types_of
      (service_pdf (Some (accept_only "/plugins/pdf")) ["/plugins/legacy"])
      request_pdf !! 0 = Some m0
    ∧ PluginInfoMessageFilter.PluginsLoaded
        (service_pdf (Some (accept_only "/plugins/pdf")) ["/plugins/legacy"])
        guest7 true context_page request_pdf =
      Some {| status := kAllowed; plugin := Some P1; actual_mime_type := m0 |}.
Proof.
  apply (first_available_allowed
           (service_pdf (Some (accept_only "/plugins/pdf")) ["/plugins/legacy"])
           guest7 true context_page request_pdf P1 [P2]).
  - reflexivity.
  - right. reflexivity.
  - reflexivity.
  - reflexivity.
  - reflexivity.
Defined.

Lemma downgrades_only_from_allowed_witness :
  PluginInfoMessageFilter.DecidePluginStatus
    (service_legacy (Some reject_all) ["/plugins/legacy"]) guest7
    context_guest request_mp4 P2 kDisabled ≠ kAllowed
  ∧ PluginInfoMessageFilter.PluginsLoaded
      (service_legacy (Some reject_all) ["/plugins/legacy"]) guest7 true
      context_guest request_mp4 =
    Some {| status := kDisabled; plugin := Some P2; actual_mime_type := "*" |}
  ∧ status <$> PluginInfoMessageFilter.PluginsLoaded
      (service_legacy (Some reject_all) ["/plugins/legacy"]) guest7 true
      context_guest request_mp4 = Some kDisabled.
Proof.
  destruct (downgrades_only_from_allowed
              (service_legacy (Some reject_all) ["/plugins/legacy"]) guest7
              true context_guest request_mp4)
    as (Hupgrade & Hselected & Hrejected).
  split_and!.
  - intros Hallowed. apply Hupgrade in Hallowed. discriminate Hallowed.
  - destruct (Hselected false
                {| status := kDisabled; plugin := Some P2;
                   actual_mime_type := "*" |}) as (_ & Hkept & _).
    + reflexivity.
    + apply Hkept. discriminate.
  - apply (Hrejected P2 []).
    + reflexivity.
    + repeat constructor.
    + reflexivity.
Defined.

Lemma internal_plugin_first_match_witness :
  PluginInfoMessageFilter.IsInternalPluginAvailableForMimeType
    (table_service [] [] true None [] [P2; P1]) "application/pdf" =
    {| is_available := true;
       additional_param_names := ["zoom"];
       additional_param_values := ["fit"] |}
  ∧ PluginInfoMessageFilter.IsInternalPluginAvailableForMimeType
      (table_service [] [] true None [] [P2; P1]) "video/mp4" =
    {| is_available := false;
       additional_param_names := [];
       additional_param_values := [] |}.
Proof.
  split.
  - destruct (internal_plugin_first_match
                (table_service [] [] true None [] [P2; P1]) "application/pdf")
      as (Hfirst & _ & _).
    apply (Hfirst [P2] P1 [] []
             {| content.mime_type := "application/pdf";
                content.additional_param_names := ["zoom"];
                content.additional_param_values := ["fit"] |} []).
    + reflexivity.
    + intros q m' Hq Hm'.
      apply list_elem_of_singleton in Hq. subst q.
      apply list_elem_of_singleton in Hm'. subst m'. discriminate.
    + reflexivity.
    + intros m' Hm'. by apply elem_of_nil in Hm'.
    + reflexivity.
  - destruct (internal_plugin_first_match
                (table_service [] [] true None [] [P2; P1]) "video/mp4")
      as (_ & Hnone & _).
    apply Hnone. intros q m' Hq Hm'. simpl in Hq.
    apply elem_of_cons in Hq as [->|Hq].
    + apply list_elem_of_singleton in Hm'. subst m'. discriminate.
    + apply list_elem_of_singleton in Hq. subst q.
      apply list_elem_of_singleton in Hm'. subst m'. discriminate.
Defined.

Lemma verdict_same_index_witness :
  ∃ out i p m,
    PluginInfoMessageFilter.PluginsLoaded
      (service_pdf (Some (accept_only "/plugins/legacy")) []) guest7 true
      context_page request_pdf = Some out
    ∧ PluginInfoMessageFilter.matching_plugins_of
        (service_pdf (Some (accept_only "/plugins/legacy")) []) request_pdf
        !! i = Some p
    ∧ PluginInfoMessageFilter.mime_types_of
        (service_pdf (Some (accept_only "/plugins/legacy")) []) request_pdf
        !! i = Some m
    ∧ plugin out = Some p
    ∧ actual_mime_type out = m.
Proof.
  destruct (verdict_same_index
              (service_pdf (Some (accept_only "/plugins/legacy")) []) guest7
              true context_page request_pdf)
    as (out & i & p & m & Hout & _ & Hp & Hm & Hplugin & Hmime & _).
  - discriminate.
  - reflexivity.
  - exists out, i, p, m. split_and!; assumption.
Defined.

(** ** The verdict as a function of the request *)

Section Verdicts.

Variable service : PluginService.
Variable webview : WebViewRendererState.
Variable os_win_or_macosx : bool.
Variable context_ : PluginInfoMessageFilter_Context.

Local Abbreviation FindEnabledPlugin := (PluginInfoMessageFilter.FindEnabledPlugin service os_win_or_macosx context_).
Local Abbreviation DecidePluginStatus := (PluginInfoMessageFilter.DecidePluginStatus service webview context_).
Local Abbreviation PluginsLoaded := (PluginInfoMessageFilter.PluginsLoaded service webview os_win_or_macosx context_).
Local Abbreviation matching_plugins_of := (PluginInfoMessageFilter.matching_plugins_of service).
Local Abbreviation mime_types_of := (PluginInfoMessageFilter.mime_types_of service).
Local Abbreviation available_for := (PluginInfoMessageFilter.available_for service context_).
Local Abbreviation chosen_index := (PluginInfoMessageFilter.chosen_index service context_).
Local Abbreviation chosen_plugin := (PluginInfoMessageFilter.chosen_plugin service context_).
Local Abbreviation is_guest := (PluginInfoMessageFilter.is_guest webview context_).

Implicit Types (params : GetPluginInfo_Params) (p : WebPluginInfo).
Implicit Types (out : ChromeViewHostMsg_GetPluginInfo_Output).

(** The selection when some candidate is available, whatever the length of
    the MIME vector. *)
Lemma FindEnabledPlugin_found params out i p :
  list_find (λ q, available_for params q = true) (matching_plugins_of params)
    = Some (i, p) →
  FindEnabledPlugin (render_frame_id params) (url params)
    (top_origin_url params) (mime_type params) out =
  (m ← mime_types_of params !! i;
   Some (true, {| status := kAllowed; plugin := Some p; actual_mime_type := m |})).
Proof.
  intros Hfind. unfold PluginInfoMessageFilter.FindEnabledPlugin.
  rewrite matcher_vectors.
  pose proof (list_find_lt _ _ _ _ Hfind) as Hlt.
  destruct (matching_plugins_of params) as [|p0 ps] eqn:Hps; [simpl in Hlt; lia|].
  rewrite first_available_from_find.
  unfold PluginInfoMessageFilter.available_for in Hfind. rewrite Hfind. simpl "+".
  rewrite bool_decide_eq_true_2 by done.
  apply list_find_Some in Hfind as (Hi & _ & _).
  rewrite Hi. simpl. by destruct (_ !! _).
Qed.

(** The selection when every candidate was rejected. *)
Lemma FindEnabledPlugin_rejected params out p0 ps :
  matching_plugins_of params = p0 :: ps →
  Forall (λ q, available_for params q = false) (p0 :: ps) →
  FindEnabledPlugin (render_frame_id params) (url params)
    (top_origin_url params) (mime_type params) out =
  (m ← mime_types_of params !! 0;
   Some (false, {| status := kDisabled; plugin := Some p0; actual_mime_type := m |})).
Proof.
  intros Hps Hall. unfold PluginInfoMessageFilter.FindEnabledPlugin.
  rewrite matcher_vectors, Hps.
  rewrite first_available_from_find.
  apply unavailable_find in Hall. unfold PluginInfoMessageFilter.available_for in Hall.
  rewrite Hall. simpl "+".
  rewrite bool_decide_eq_false_2 by (simpl; lia).
  simpl. by destruct (_ !! _).
Qed.

Lemma chosen_plugin_empty params :
  matching_plugins_of params = [] → chosen_plugin params = None.
Proof.
  intros Hnil. unfold PluginInfoMessageFilter.chosen_plugin. by rewrite Hnil.
Qed.

(** With a candidate, the verdict is read off the chosen index. *)
Lemma PluginsLoaded_nonempty params :
  matching_plugins_of params ≠ [] →
  PluginsLoaded params =
  (p ← chosen_plugin params;
   m ← mime_types_of params !! chosen_index params;
   Some {| status := if available_for params p
                     then DecidePluginStatus params p kAllowed
                     else kDisabled;
           plugin := Some p;
           actual_mime_type := m |}).
Proof.
  intros Hne.
  destruct (selection_cases service context_ params)
    as [Hnil|[(i & p & Hfind)|(p0 & ps & Hps & Hall)]]; [done| |].
  - destruct (chosen_index_enabled _ _ _ _ _ Hfind) as (Hi & Hp & Hav).
    rewrite Hp, Hi. simpl. rewrite Hav.
    unfold PluginInfoMessageFilter.PluginsLoaded.
    rewrite (FindEnabledPlugin_found _ _ _ _ Hfind).
    by destruct (_ !! _).
  - destruct (chosen_index_disabled _ _ _ _ _ Hps Hall) as (Hi & Hp & Hav).
    rewrite Hp, Hi. simpl. rewrite Hav.
    unfold PluginInfoMessageFilter.PluginsLoaded.
    rewrite (FindEnabledPlugin_rejected _ _ _ _ Hps Hall).
    by destruct (_ !! _).
Qed.

Lemma chosen_index_lt params :
  matching_plugins_of params ≠ [] →
  chosen_index params < length (matching_plugins_of params).
Proof.
  intros Hne. unfold PluginInfoMessageFilter.chosen_index.
  case_bool_decide; [done|].
  destruct (matching_plugins_of params); [done|simpl; lia].
Qed.

(** The statuses a request can end with, and when. *)
Lemma PluginsLoaded_status params s :
  status <$> PluginsLoaded params = Some s ↔
  (matching_plugins_of params = [] ∧ s = kNotFound)
  ∨ (∃ p, chosen_plugin params = Some p
        ∧ is_Some (mime_types_of params !! chosen_index params)
        ∧ s = if available_for params p
              then DecidePluginStatus params p kAllowed
              else kDisabled).
Proof.
  destruct (decide (matching_plugins_of params = [])) as [Hnil|Hne].
  - rewrite (PluginsLoaded_empty _ _ _ _ _ Hnil), (chosen_plugin_empty _ Hnil).
    simpl. split.
    + intros [= <-]. by left.
    + intros [[_ ->]|(p & Hp & _)]; [done|discriminate].
  - rewrite (PluginsLoaded_nonempty _ Hne).
    destruct (chosen_plugin params) as [p|]; simpl.
    + destruct (mime_types_of params !! chosen_index params) as [m|]; simpl.
      * split.
        -- intros [= <-]. right. exists p. eauto.
        -- intros [[Hnil _]|(q & [= <-] & _ & ->)]; done.
      * split; [discriminate|].
        intros [[Hnil _]|(q & _ & [m Hm] & _)]; [done|discriminate].
    + split; [discriminate|].
      intros [[Hnil _]|(q & Hq & _)]; [done|discriminate].
Qed.

(** *** What [DecidePluginStatus] makes of [kAllowed] *)

Lemma DecidePluginStatus_allowed_iff params p :
  DecidePluginStatus params p kAllowed = kAllowed ↔
  is_guest = false ∧ IsPluginUnstable service (path p) = false.
Proof.
  unfold PluginInfoMessageFilter.DecidePluginStatus, PluginInfoMessageFilter.is_guest.
  case_bool_decide; destruct (IsGuest _ _), (IsPluginUnstable _ _); simpl;
    split; (done || intros [? ?]; done).
Qed.

Lemma DecidePluginStatus_not_supported_iff params p :
  DecidePluginStatus params p kAllowed = kNPAPINotSupported ↔
  type p = PLUGIN_TYPE_NPAPI ∧ is_guest = true.
Proof.
  unfold PluginInfoMessageFilter.DecidePluginStatus, PluginInfoMessageFilter.is_guest.
  case_bool_decide; destruct (IsGuest _ _), (IsPluginUnstable _ _); simpl;
    split; (done || intros [? ?]; done).
Qed.

Lemma DecidePluginStatus_unauthorized_iff params p :
  DecidePluginStatus params p kAllowed = kUnauthorized ↔
  ¬ (type p = PLUGIN_TYPE_NPAPI ∧ is_guest = true)
  ∧ (IsPluginUnstable service (path p) = true ∨ is_guest = true).
Proof.
  unfold PluginInfoMessageFilter.DecidePluginStatus, PluginInfoMessageFilter.is_guest.
  case_bool_decide; destruct (IsGuest _ _), (IsPluginUnstable _ _); simpl;
    intuition congruence.
Qed.

Lemma DecidePluginStatus_from_allowed params p :
  DecidePluginStatus params p kAllowed ≠ kDisabled
  ∧ DecidePluginStatus params p kAllowed ≠ kNotFound.
Proof.
  unfold PluginInfoMessageFilter.DecidePluginStatus.
  destruct (_ && _); [done|].
  destruct (IsPluginUnstable _ _); [done|].
  simpl. by destruct (IsGuest _ _).
Qed.

(** *** Further properties of [PluginsLoaded] *)

(** The read of [matching_plugins[i]] is always within the vector; the
    request has no defined verdict exactly when there is a candidate and
    the MIME vector has no entry at the chosen index. *)
Theorem verdict_undefined_iff params :
  (matching_plugins_of params ≠ [] →
   chosen_index params < length (matching_plugins_of params))
  ∧ (PluginsLoaded params = None ↔
     matching_plugins_of params ≠ []
     ∧ (length (mime_types_of params) ≤ chosen_index params)%nat).
Proof.
  split; [apply chosen_index_lt|].
  destruct (decide (matching_plugins_of params = [])) as [Hnil|Hne].
  - rewrite (PluginsLoaded_empty _ _ _ _ _ Hnil). split; [discriminate|].
    by intros [? _].
  - rewrite (PluginsLoaded_nonempty _ Hne).
    destruct (lookup_lt_is_Some_2 _ _ (chosen_index_lt _ Hne)) as [p Hp].
    unfold PluginInfoMessageFilter.chosen_plugin. rewrite Hp. simpl.
    destruct (mime_types_of params !! chosen_index params) as [m|] eqn:Hm; simpl.
    + split; [discriminate|]. intros [_ Hle].
      apply lookup_lt_Some in Hm. lia.
    + split; [|done]. intros _. split; [done|].
      by apply lookup_ge_None.
Qed.

(** The verdict is [kAllowed] exactly when the chosen candidate passed the
    availability filter, the requester is not a guest and the candidate is
    not flagged unstable (and the MIME vector reaches the chosen index). *)
Theorem allowed_iff params :
  status <$> PluginsLoaded params = Some kAllowed ↔
  ∃ p, chosen_plugin params = Some p
     ∧ is_Some (mime_types_of params !! chosen_index params)
     ∧ available_for params p = true
     ∧ is_guest = false
     ∧ IsPluginUnstable service (path p) = false.
Proof.
  rewrite PluginsLoaded_status. split.
  - intros [[_ ?]|(p & Hp & Hm & Hs)]; [done|].
    exists p. destruct (available_for params p); [|done].
    symmetry in Hs. apply DecidePluginStatus_allowed_iff in Hs as [? ?]. done.
  - intros (p & Hp & Hm & Hav & Hguest & Hstable). right. exists p.
    rewrite Hav. split_and!; [done..|].
    symmetry. by apply DecidePluginStatus_allowed_iff.
Qed.

(** The verdict is [kNotFound] exactly when the matcher returned no
    candidate, and [kDisabled] exactly when it returned some and the
    availability filter rejected them all (and the MIME vector is not
    empty). *)
Theorem selection_status_iff params :
  (status <$> PluginsLoaded params = Some kNotFound ↔
   matching_plugins_of params = [])
  ∧ (status <$> PluginsLoaded params = Some kDisabled ↔
     ∃ p0 ps, matching_plugins_of params = p0 :: ps
       ∧ Forall (λ q, available_for params q = false) (p0 :: ps)
       ∧ is_Some (mime_types_of params !! 0)).
Proof.
  rewrite !PluginsLoaded_status. split; split.
  - intros [[? _]|(p & Hp & Hm & Hs)]; [done|].
    destruct (available_for params p); [|done].
    by destruct (DecidePluginStatus_from_allowed params p) as [_ ?].
  - intros Hnil. by left.
  - intros [[_ ?]|(p & Hp & Hm & Hs)]; [done|].
    destruct (available_for params p) eqn:Hav.
    + by destruct (DecidePluginStatus_from_allowed params p) as [? _].
    + destruct (chosen_unavailable_all _ _ _ _ Hp Hav) as (ps & Hps & Hall).
      destruct (chosen_index_disabled _ _ _ _ _ Hps Hall) as (Hi & _ & _).
      rewrite Hi in Hm. eauto.
  - intros (p0 & ps & Hps & Hall & Hm). right.
    destruct (chosen_index_disabled _ _ _ _ _ Hps Hall) as (Hi & Hp & Hav).
    exists p0. rewrite Hi, Hav. done.
Qed.

(** The verdict is [kNPAPINotSupported] exactly when the chosen candidate
    passed the availability filter, is of type [PLUGIN_TYPE_NPAPI] and the
    requester is a guest. *)
Theorem not_supported_iff params :
  status <$> PluginsLoaded params = Some kNPAPINotSupported ↔
  ∃ p, chosen_plugin params = Some p
     ∧ is_Some (mime_types_of params !! chosen_index params)
     ∧ available_for params p = true
     ∧ type p = PLUGIN_TYPE_NPAPI
     ∧ is_guest = true.
Proof.
  rewrite PluginsLoaded_status. split.
  - intros [[_ ?]|(p & Hp & Hm & Hs)]; [done|].
    exists p. destruct (available_for params p); [|done].
    symmetry in Hs. apply DecidePluginStatus_not_supported_iff in Hs as [? ?]. done.
  - intros (p & Hp & Hm & Hav & Hty & Hguest). right. exists p.
    rewrite Hav. split_and!; [done..|].
    symmetry. by apply DecidePluginStatus_not_supported_iff.
Qed.

(** The verdict is [kUnauthorized] exactly when the chosen candidate passed
    the availability filter, is flagged unstable or requested by a guest,
    and is not a [PLUGIN_TYPE_NPAPI] plugin requested by a guest. *)
Theorem unauthorized_iff params :
  status <$> PluginsLoaded params = Some kUnauthorized ↔
  ∃ p, chosen_plugin params = Some p
     ∧ is_Some (mime_types_of params !! chosen_index params)
     ∧ available_for params p = true
     ∧ ¬ (type p = PLUGIN_TYPE_NPAPI ∧ is_guest = true)
     ∧ (IsPluginUnstable service (path p) = true ∨ is_guest = true).
Proof.
  rewrite PluginsLoaded_status. split.
  - intros [[_ ?]|(p & Hp & Hm & Hs)]; [done|].
    exists p. destruct (available_for params p); [|done].
    symmetry in Hs. apply DecidePluginStatus_unauthorized_iff in Hs as [? ?]. done.
  - intros (p & Hp & Hm & Hav & Hno & Hwhy). right. exists p.
    rewrite Hav. split_and!; [done..|].
    symmetry. by apply DecidePluginStatus_unauthorized_iff.
Qed.

(** A guest is never answered [kAllowed], and no verdict is [kAllowed] for
    a plugin flagged unstable. *)
Theorem never_allowed_for_guest_or_unstable params out :
  PluginsLoaded params = Some out →
  status out = kAllowed →
  is_guest = false
  ∧ ∃ p, plugin out = Some p ∧ IsPluginUnstable service (path p) = false.
Proof.
  intros Hout Hs.
  destruct (decide (matching_plugins_of params = [])) as [Hnil|Hne].
  - rewrite (PluginsLoaded_empty _ _ _ _ _ Hnil) in Hout.
    injection Hout as <-. discriminate Hs.
  - rewrite (PluginsLoaded_nonempty _ Hne) in Hout.
    destruct (chosen_plugin params) as [p|]; [|discriminate].
    destruct (mime_types_of params !! chosen_index params) as [m|]; [|discriminate].
    simpl in Hout. injection Hout as <-. simpl in Hs |- *.
    destruct (available_for params p); [|discriminate].
    apply DecidePluginStatus_allowed_iff in Hs as [? ?]. eauto.
Qed.

(** With no filter installed the first candidate is always the chosen one,
    and the verdict is what [DecidePluginStatus] makes of [kAllowed] for
    it: never [kDisabled]. *)
Theorem no_filter_first_candidate params p0 ps m0 :
  GetFilter service = None →
  matching_plugins_of params = p0 :: ps →
  mime_types_of params !! 0 = Some m0 →
  PluginsLoaded params =
    Some {| status := DecidePluginStatus params p0 kAllowed;
            plugin := Some p0; actual_mime_type := m0 |}
  ∧ DecidePluginStatus params p0 kAllowed ≠ kDisabled.
Proof.
  intros Hnone Hps Hm.
  pose proof (available_without_filter _ context_ params p0 Hnone) as Hav.
  pose proof (first_candidate_found _ _ _ _ _ Hps Hav) as Hfind.
  split; [|by destruct (DecidePluginStatus_from_allowed params p0)].
  by apply PluginsLoaded_enabled with 0.
Qed.

(** Running [DecidePluginStatus] a second time on its own result changes
    nothing. *)
Theorem DecidePluginStatus_idempotent params p s :
  DecidePluginStatus params p (DecidePluginStatus params p s) =
  DecidePluginStatus params p s.
Proof.
  unfold PluginInfoMessageFilter.DecidePluginStatus.
  destruct (_ && _); [done|].
  destruct (IsPluginUnstable _ _); [done|].
  destruct (decide (s = kAllowed)) as [->|Hs].
  - rewrite (bool_decide_eq_true_2 (kAllowed = kAllowed)) by done.
    destruct (IsGuest _ _); [done|].
    by rewrite bool_decide_eq_true_2.
  - rewrite (bool_decide_eq_false_2 (s = kAllowed)) by done.
    by rewrite bool_decide_eq_false_2.
Qed.

(** With no candidate [FindEnabledPlugin] returns [false] having written
    [kNotFound] and nothing else: [plugin] and [actual_mime_type] keep what
    they held on entry.  With a candidate it overwrites all three, so that
    nothing of the output on entry survives. *)
Theorem FindEnabledPlugin_out_params params out out' :
  (matching_plugins_of params = [] →
   FindEnabledPlugin (render_frame_id params) (url params)
     (top_origin_url params) (mime_type params) out =
   Some (false, {| status := kNotFound; plugin := plugin out;
                   actual_mime_type := actual_mime_type out |}))
  ∧ (matching_plugins_of params ≠ [] →
     FindEnabledPlugin (render_frame_id params) (url params)
       (top_origin_url params) (mime_type params) out =
     FindEnabledPlugin (render_frame_id params) (url params)
       (top_origin_url params) (mime_type params) out').
Proof.
  split.
  - intros Hnil. unfold PluginInfoMessageFilter.FindEnabledPlugin.
    rewrite matcher_vectors, Hnil. simpl. by destruct (_ && _).
  - intros Hne.
    destruct (selection_cases service context_ params)
      as [Hnil|[(i & p & Hfind)|(p0 & ps & Hps & Hall)]]; [done| |].
    + by rewrite !(FindEnabledPlugin_found _ _ _ _ Hfind).
    + by rewrite !(FindEnabledPlugin_rejected _ _ _ _ Hps Hall).
Qed.

End Verdicts.

(** ** What the verdict depends on *)

(** [DecidePluginStatus] looks at the plugin service through
    [IsPluginUnstable] only, and not at the request. *)
Lemma DecidePluginStatus_ext (service1 service2 : PluginService)
    (webview : WebViewRendererState)
    (context_ : PluginInfoMessageFilter_Context)
    (params1 params2 : GetPluginInfo_Params) (p : WebPluginInfo)
    (s : ChromeViewHostMsg_GetPluginInfo_Status) :
  IsPluginUnstable service1 (path p) = IsPluginUnstable service2 (path p) →
  PluginInfoMessageFilter.DecidePluginStatus service1 webview context_ params1 p s =
  PluginInfoMessageFilter.DecidePluginStatus service2 webview context_ params2 p s.
Proof.
  unfold PluginInfoMessageFilter.DecidePluginStatus. by intros ->.
Qed.

(** The verdict depends on the plugin service only through the candidates
    of this request (with wildcards allowed), the filter and the instability
    flags.  It is the same on every platform, with or without NPAPI support,
    and whatever the internal plugins are. *)
Theorem verdict_ignores_platform (service1 service2 : PluginService)
    (webview : WebViewRendererState) (os1 os2 : bool)
    (context_ : PluginInfoMessageFilter_Context)
    (params : GetPluginInfo_Params) :
  GetPluginInfoArray service1 (url params) (mime_type params) true =
    GetPluginInfoArray service2 (url params) (mime_type params) true →
  GetFilter service1 = GetFilter service2 →
  (∀ path, IsPluginUnstable service1 path = IsPluginUnstable service2 path) →
  PluginInfoMessageFilter.PluginsLoaded service1 webview os1 context_ params =
  PluginInfoMessageFilter.PluginsLoaded service2 webview os2 context_ params.
Proof.
  intros Hmatch Hfilter Hunstable.
  assert (PluginInfoMessageFilter.matching_plugins_of service1 params =
          PluginInfoMessageFilter.matching_plugins_of service2 params) as Hplugins.
  { unfold PluginInfoMessageFilter.matching_plugins_of. by rewrite Hmatch. }
  assert (PluginInfoMessageFilter.mime_types_of service1 params =
          PluginInfoMessageFilter.mime_types_of service2 params) as Hmimes.
  { unfold PluginInfoMessageFilter.mime_types_of. by rewrite Hmatch. }
  assert (PluginInfoMessageFilter.available_for service1 context_ params =
          PluginInfoMessageFilter.available_for service2 context_ params) as Hav.
  { unfold PluginInfoMessageFilter.available_for,
      PluginInfoMessageFilter.plugin_available. by rewrite Hfilter. }
  assert (PluginInfoMessageFilter.chosen_index service1 context_ params =
          PluginInfoMessageFilter.chosen_index service2 context_ params) as Hindex.
  { unfold PluginInfoMessageFilter.chosen_index. by rewrite Hav, Hplugins. }
  assert (PluginInfoMessageFilter.chosen_plugin service1 context_ params =
          PluginInfoMessageFilter.chosen_plugin service2 context_ params) as Hchosen.
  { unfold PluginInfoMessageFilter.chosen_plugin. by rewrite Hindex, Hplugins. }
  destruct (decide (PluginInfoMessageFilter.matching_plugins_of service2 params = []))
    as [Hnil|Hne].
  - rewrite !PluginsLoaded_empty; [done..|]. by rewrite Hplugins.
  - rewrite !PluginsLoaded_nonempty; [|done|by rewrite Hplugins].
    rewrite Hchosen, Hmimes, Hindex, Hav.
    destruct (PluginInfoMessageFilter.chosen_plugin service2 context_ params)
      as [p|]; simpl; [|done].
    by rewrite (DecidePluginStatus_ext service1 service2 _ _ params params p _
                  (Hunstable (path p))).
Qed.

(** The loop breaks at the first candidate the filter accepts: what the
    filter would say of the candidates after it has no bearing on the
    verdict. *)
Theorem later_filter_answers_ignored (service1 service2 : PluginService)
    (webview : WebViewRendererState) (os_win_or_macosx : bool)
    (context_ : PluginInfoMessageFilter_Context)
    (params : GetPluginInfo_Params) (p : WebPluginInfo) :
  GetPluginInfoArray service1 (url params) (mime_type params) true =
    GetPluginInfoArray service2 (url params) (mime_type params) true →
  (∀ path, IsPluginUnstable service1 path = IsPluginUnstable service2 path) →
  PluginInfoMessageFilter.chosen_plugin service1 context_ params = Some p →
  PluginInfoMessageFilter.available_for service1 context_ params p = true →
  (∀ j q,
     (j ≤ PluginInfoMessageFilter.chosen_index service1 context_ params)%nat →
     PluginInfoMessageFilter.matching_plugins_of service1 params !! j = Some q →
     PluginInfoMessageFilter.available_for service2 context_ params q =
     PluginInfoMessageFilter.available_for service1 context_ params q) →
  PluginInfoMessageFilter.PluginsLoaded service1 webview os_win_or_macosx
    context_ params =
  PluginInfoMessageFilter.PluginsLoaded service2 webview os_win_or_macosx
    context_ params.
Proof.
  intros Hmatch Hunstable Hp Hav Hagree.
  pose proof (chosen_available_find _ _ _ _ Hp Hav) as Hfind1.
  set (i := PluginInfoMessageFilter.chosen_index service1 context_ params) in *.
  assert (PluginInfoMessageFilter.matching_plugins_of service1 params =
          PluginInfoMessageFilter.matching_plugins_of service2 params) as Hplugins.
  { unfold PluginInfoMessageFilter.matching_plugins_of. by rewrite Hmatch. }
  assert (PluginInfoMessageFilter.mime_types_of service1 params =
          PluginInfoMessageFilter.mime_types_of service2 params) as Hmimes.
  { unfold PluginInfoMessageFilter.mime_types_of. by rewrite Hmatch. }
  assert (list_find
            (λ q, PluginInfoMessageFilter.available_for service2 context_ params q = true)
            (PluginInfoMessageFilter.matching_plugins_of service2 params)
          = Some (i, p)) as Hfind2.
  { apply list_find_Some in Hfind1 as (Hlook & _ & Hleast).
    apply list_find_Some. rewrite <- Hplugins. split_and!.
    - done.
    - rewrite (Hagree i p); done.
    - intros j q Hq Hj. rewrite (Hagree j q); [|lia|done]. by apply (Hleast j q). }
  unfold PluginInfoMessageFilter.PluginsLoaded.
  rewrite (FindEnabledPlugin_found _ _ _ _ _ _ _ Hfind1),
    (FindEnabledPlugin_found _ _ _ _ _ _ _ Hfind2), Hmimes.
  destruct (_ !! _) as [m|]; simpl; [|done].
  by rewrite (DecidePluginStatus_ext service1 service2 _ _ params params p _
                (Hunstable (path p))).
Qed.

(** ** More on the internal-plugin query *)

Lemma scan_mime_types_Some (mime : string) (l : list WebPluginMimeType)
    (m : WebPluginMimeType) :
  scan_mime_types mime l = Some m → m ∈ l ∧ content.mime_type m = mime.
Proof.
  induction l as [|m' l IH]; simpl; [discriminate|].
  destruct (String.eqb_spec (content.mime_type m') mime) as [He|_].
  - intros [= <-]. split; [left|done].
  - intros [Hin Hm]%IH. split; [by right|done].
Qed.

Lemma scan_plugins_Some (mime : string) (l : list WebPluginInfo)
    (m : WebPluginMimeType) :
  scan_plugins mime l = Some m →
  ∃ p, p ∈ l ∧ m ∈ mime_types p ∧ content.mime_type m = mime.
Proof.
  induction l as [|p l IH]; simpl; [discriminate|].
  destruct (scan_mime_types mime (mime_types p)) as [m'|] eqn:Hscan.
  - intros [= <-]. apply scan_mime_types_Some in Hscan as [? ?].
    exists p. split; [left|done].
  - intros (q & Hq & Hm)%IH. exists q. split; [by right|done].
Qed.

Lemma scan_mime_types_None (mime : string) (l : list WebPluginMimeType) :
  scan_mime_types mime l = None →
  ∀ m, m ∈ l → content.mime_type m ≠ mime.
Proof.
  induction l as [|m' l IH]; simpl; intros Hscan m Hm.
  - by apply elem_of_nil in Hm.
  - destruct (String.eqb_spec (content.mime_type m') mime) as [|Hne];
      [discriminate|].
    apply elem_of_cons in Hm as [->|Hm]; [done|by apply IH].
Qed.

Lemma scan_plugins_None (mime : string) (l : list WebPluginInfo) :
  scan_plugins mime l = None →
  ∀ p m, p ∈ l → m ∈ mime_types p → content.mime_type m ≠ mime.
Proof.
  induction l as [|q l IH]; simpl; intros Hscan p m Hp Hm.
  - by apply elem_of_nil in Hp.
  - destruct (scan_mime_types mime (mime_types q)) eqn:Hq; [discriminate|].
    apply elem_of_cons in Hp as [->|Hp].
    + by apply (scan_mime_types_None _ _ Hq).
    + by apply (IH Hscan p).
Qed.

Lemma scan_plugins_app (mime : string) (l1 l2 : list WebPluginInfo) :
  scan_plugins mime (l1 ++ l2) =
  match scan_plugins mime l1 with
  | Some m => Some m
  | None => scan_plugins mime l2
  end.
Proof.
  induction l1 as [|p l1 IH]; simpl; [done|].
  by destruct (scan_mime_types mime (mime_types p)).
Qed.

(** The query answers available exactly when some internal plugin has an
    association with the requested MIME type, and the parameters it then
    returns are those of such an association, names and values of the same
    one. *)
Theorem internal_available_iff (service : PluginService) (mime : string) :
  (is_available
     (PluginInfoMessageFilter.IsInternalPluginAvailableForMimeType service mime)
     = true ↔
   ∃ p m, p ∈ GetInternalPlugins service ∧ m ∈ mime_types p
          ∧ content.mime_type m = mime)
  ∧ (is_available
       (PluginInfoMessageFilter.IsInternalPluginAvailableForMimeType service mime)
       = true →
     ∃ p m, p ∈ GetInternalPlugins service ∧ m ∈ mime_types p
       ∧ content.mime_type m = mime
       ∧ additional_param_names
           (PluginInfoMessageFilter.IsInternalPluginAvailableForMimeType service mime)
         = content.additional_param_names m
       ∧ additional_param_values
           (PluginInfoMessageFilter.IsInternalPluginAvailableForMimeType service mime)
         = content.additional_param_values m).
Proof.
  unfold PluginInfoMessageFilter.IsInternalPluginAvailableForMimeType,
    PluginInfoMessageFilter.OnIsInternalPluginAvailableForMimeType.
  destruct (scan_plugins mime (GetInternalPlugins service)) as [m|] eqn:Hscan;
    simpl.
  - destruct (scan_plugins_Some _ _ _ Hscan) as (p & Hp & Hm & Heq).
    split; [split; eauto|eauto 10].
  - split; [|discriminate]. split; [discriminate|].
    intros (p & m & Hp & Hm & Heq).
    by destruct (scan_plugins_None _ _ Hscan p m).
Qed.

(** The first plugins win: when the internal plugins are the plugins of
    [service1] followed by those of [service2], the query is answered from
    the first list if it has a match there, and from the second
    otherwise. *)
Theorem internal_first_plugins_win (service service1 service2 : PluginService)
    (mime : string) :
  GetInternalPlugins service =
    (GetInternalPlugins service1 ++ GetInternalPlugins service2)%list →
  PluginInfoMessageFilter.IsInternalPluginAvailableForMimeType service mime =
  if is_available
       (PluginInfoMessageFilter.IsInternalPluginAvailableForMimeType service1 mime)
  then PluginInfoMessageFilter.IsInternalPluginAvailableForMimeType service1 mime
  else PluginInfoMessageFilter.IsInternalPluginAvailableForMimeType service2 mime.
Proof.
  intros Happ.
  unfold PluginInfoMessageFilter.IsInternalPluginAvailableForMimeType,
    PluginInfoMessageFilter.OnIsInternalPluginAvailableForMimeType.
  rewrite Happ, scan_plugins_app.
  by destruct (scan_plugins mime (GetInternalPlugins service1)).
Qed.

(** The handler and the values its out-parameters hold on entry: whether it
    reports a match never depends on them; on a match all three are
    overwritten; on a miss only [is_available] is written, the two vectors
    are handed back as they came. *)
Theorem internal_handler_entry_values (service : PluginService) (mime : string)
    (reply : InternalPluginReply) :
  is_available
    (PluginInfoMessageFilter.OnIsInternalPluginAvailableForMimeType service mime reply)
  = is_available
      (PluginInfoMessageFilter.IsInternalPluginAvailableForMimeType service mime)
  ∧ (is_available
       (PluginInfoMessageFilter.OnIsInternalPluginAvailableForMimeType service mime reply)
     = true →
     PluginInfoMessageFilter.OnIsInternalPluginAvailableForMimeType service mime reply
     = PluginInfoMessageFilter.IsInternalPluginAvailableForMimeType service mime)
  ∧ (is_available
       (PluginInfoMessageFilter.OnIsInternalPluginAvailableForMimeType service mime reply)
     = false →
     additional_param_names
       (PluginInfoMessageFilter.OnIsInternalPluginAvailableForMimeType service mime reply)
     = additional_param_names reply
     ∧ additional_param_values
         (PluginInfoMessageFilter.OnIsInternalPluginAvailableForMimeType service mime reply)
       = additional_param_values reply).
Proof.
  unfold PluginInfoMessageFilter.IsInternalPluginAvailableForMimeType,
    PluginInfoMessageFilter.OnIsInternalPluginAvailableForMimeType.
  destruct (scan_plugins mime (GetInternalPlugins service)); simpl.
  - split_and!; [done|done|discriminate].
  - split_and!; [done|discriminate|done].
Qed.

(** ** The message loop *)

(** [OnMessageReceived] claims [ChromeViewHostMsg_GetPluginInfo] always and
    the internal-plugin query in builds with [ENABLE_PEPPER_CDMS] only; a
    message it does not claim changes nothing; the internal-plugin query is
    answered before it returns; [ChromeViewHostMsg_GetPluginInfo] is not:
    its callback is queued and nothing is sent. *)
Theorem message_map (service : PluginService) (enable_pepper_cdms : bool)
    (message : IPC_Message) (w : World) :
  ((PluginInfoMessageFilter.OnMessageReceived service enable_pepper_cdms message w).1
     = true ↔
   (∃ rfid u t m, payload message = ChromeViewHostMsg_GetPluginInfo rfid u t m)
   ∨ (enable_pepper_cdms = true
      ∧ ∃ m, payload message =
             ChromeViewHostMsg_IsInternalPluginAvailableForMimeType m))
  ∧ ((PluginInfoMessageFilter.OnMessageReceived service enable_pepper_cdms message w).1
       = false →
     (PluginInfoMessageFilter.OnMessageReceived service enable_pepper_cdms message w).2
       = w)
  ∧ (∀ m, payload message =
            ChromeViewHostMsg_IsInternalPluginAvailableForMimeType m →
          enable_pepper_cdms = true →
          sent (PluginInfoMessageFilter.OnMessageReceived service
                  enable_pepper_cdms message w).2
          = (sent w ++
             [IsInternalPluginAvailableForMimeType_reply (reply_msg_id message)
                (PluginInfoMessageFilter.IsInternalPluginAvailableForMimeType
                   service m)])%list)
  ∧ (∀ rfid u t m, payload message = ChromeViewHostMsg_GetPluginInfo rfid u t m →
       sent (PluginInfoMessageFilter.OnMessageReceived service
               enable_pepper_cdms message w).2 = sent w
       ∧ length (get_plugins_queue
                   (PluginInfoMessageFilter.OnMessageReceived service
                      enable_pepper_cdms message w).2)
         = S (length (get_plugins_queue w))).
Proof.
  unfold PluginInfoMessageFilter.OnMessageReceived.
  destruct (payload message) as [rfid u t m|m|] eqn:Hpayload.
  - split_and!.
    + split; [intros _; left; eauto|done].
    + discriminate.
    + discriminate.
    + intros ???? _. simpl. split; [done|].
      rewrite length_app. simpl. lia.
  - destruct enable_pepper_cdms; simpl.
    + split_and!.
      * split; [intros _; right; eauto|done].
      * discriminate.
      * by intros ? [= <-] _.
      * discriminate.
    + split_and!.
      * split; [discriminate|]. intros [(?&?&?&?&?)|[? _]]; discriminate.
      * done.
      * discriminate.
      * discriminate.
  - split_and!.
    + split; [discriminate|].
      intros [(?&?&?&?&?)|[_ [? ?]]]; discriminate.
    + done.
    + discriminate.
    + discriminate.
Qed.


Lemma plugins_arrive_invalid (service : PluginService)
    (webview : WebViewRendererState) (os_win_or_macosx : bool)
    (context_ : PluginInfoMessageFilter_Context) (k : nat) (w : World) :
  Forall (λ cb, weak_ptr cb < weak_ptr_factory_ w) (get_plugins_queue w) →
  ∃ w', PluginInfoMessageFilter.plugins_arrive service webview
          os_win_or_macosx context_ k w = Some w'
        ∧ sent w' = sent w
        ∧ weak_ptr_factory_ w' = weak_ptr_factory_ w
        ∧ Forall (λ cb, weak_ptr cb < weak_ptr_factory_ w')
            (get_plugins_queue w').
Proof.
  intros Hold. unfold PluginInfoMessageFilter.plugins_arrive.
  destruct (get_plugins_queue w !! k) as [cb|] eqn:Hcb.
  - pose proof (Forall_lookup_1 _ _ _ _ Hold Hcb) as Hlt. simpl in Hlt.
    rewrite bool_decide_eq_false_2 by lia.
    eexists. split; [done|]. simpl. split_and!; [done..|].
    by apply Forall_delete.
  - eauto.
Qed.

(** After [OnDestruct] no reply is sent: whichever queued callbacks the
    plugin list arrives for, and in whatever order, each finds its weak
    pointer invalid and drops out without running [PluginsLoaded]. *)
Theorem no_reply_after_destruct (service : PluginService)
    (webview : WebViewRendererState) (os_win_or_macosx : bool)
    (context_ : PluginInfoMessageFilter_Context) (ks : list nat) (w : World) :
  weak_ptrs_issued w →
  ∃ w', PluginInfoMessageFilter.plugins_arrive_all service webview
          os_win_or_macosx context_ ks (PluginInfoMessageFilter.OnDestruct w)
        = Some w'
        ∧ sent w' = sent w.
Proof.
  intros Hissued.
  assert (Forall (λ cb, weak_ptr cb < weak_ptr_factory_ (PluginInfoMessageFilter.OnDestruct w))
            (get_plugins_queue (PluginInfoMessageFilter.OnDestruct w))) as Hold.
  { simpl. eapply Forall_impl; [exact Hissued|]. simpl. intros cb Hcb. lia. }
  change (sent w) with (sent (PluginInfoMessageFilter.OnDestruct w)).
  revert Hold. generalize (PluginInfoMessageFilter.OnDestruct w). clear.
  induction ks as [|k ks IH]; intros w Hold; simpl.
  - eauto.
  - destruct (plugins_arrive_invalid service webview os_win_or_macosx context_
                k w Hold) as (w1 & -> & Hsent & _ & Hold1).
    simpl. destruct (IH w1 Hold1) as (w' & -> & Hsent').
    exists w'. split; [done|]. congruence.
Qed.


(** ** Instances of the further properties *)

Lemma verdict_undefined_iff_witness :
  PluginInfoMessageFilter.PluginsLoaded
    (table_service [P1; P2] ["application/pdf"] true
       (Some (accept_only "/plugins/legacy")) [] [])
    guest7 true context_page request_pdf = None.
Proof.
  apply (proj2 (verdict_undefined_iff
                  (table_service [P1; P2] ["application/pdf"] true
                     (Some (accept_only "/plugins/legacy")) [] [])
                  guest7 true context_page request_pdf)).
  split.
  - discriminate.
  - vm_compute. lia.
Defined.

Lemma allowed_iff_witness :
  status <$> PluginInfoMessageFilter.PluginsLoaded (service_pdf None [])
    guest7 true context_page request_pdf = Some kAllowed.
Proof.
  apply (allowed_iff (service_pdf None []) guest7 true context_page request_pdf).
  exists P1. split_and!.
  - reflexivity.
  - eexists. reflexivity.
  - reflexivity.
  - reflexivity.
  - reflexivity.
Defined.

Lemma selection_status_iff_witness :
  status <$> PluginInfoMessageFilter.PluginsLoaded
    (service_pdf (Some reject_all) []) guest7 true context_guest request_pdf
  = Some kDisabled.
Proof.
  apply (proj2 (selection_status_iff (service_pdf (Some reject_all) []) guest7
                  true context_guest request_pdf)).
  exists P1, [P2]. split_and!.
  - reflexivity.
  - repeat constructor.
  - eexists. reflexivity.
Defined.

Lemma not_supported_iff_witness :
  status <$> PluginInfoMessageFilter.PluginsLoaded (service_legacy None [])
    guest7 true context_guest request_mp4 = Some kNPAPINotSupported.
Proof.
  apply (not_supported_iff (service_legacy None []) guest7 true context_guest
           request_mp4).
  exists P2. split_and!.
  - reflexivity.
  - eexists. reflexivity.
  - reflexivity.
  - reflexivity.
  - reflexivity.
Defined.

Lemma unauthorized_iff_witness :
  status <$> PluginInfoMessageFilter.PluginsLoaded (service_pdf None [])
    guest7 true context_guest request_pdf = Some kUnauthorized.
Proof.
  apply (unauthorized_iff (service_pdf None []) guest7 true context_guest
           request_pdf).
  exists P1. split_and!.
  - reflexivity.
  - eexists. reflexivity.
  - reflexivity.
  - intros [Hty _]. discriminate Hty.
  - right. reflexivity.
Defined.

Lemma never_allowed_for_guest_or_unstable_witness :
  PluginInfoMessageFilter.is_guest guest7 context_page = false
  ∧ ∃ p, Some P1 = Some p
         ∧ IsPluginUnstable (service_pdf None ["/plugins/legacy"]) (path p) = false.
Proof.
  apply (never_allowed_for_guest_or_unstable
           (service_pdf None ["/plugins/legacy"]) guest7 true context_page
           request_pdf
           {| status := kAllowed; plugin := Some P1;
              actual_mime_type := "application/pdf" |}).
  - reflexivity.
  - reflexivity.
Defined.

Lemma no_filter_first_candidate_witness :
  PluginInfoMessageFilter.PluginsLoaded (service_pdf None ["/plugins/pdf"])
    guest7 true context_page request_pdf =
    Some {| status :=
              PluginInfoMessageFilter.DecidePluginStatus
                (service_pdf None ["/plugins/pdf"]) guest7 context_page
                request_pdf P1 kAllowed;
            plugin := Some P1; actual_mime_type := "application/pdf" |}
  ∧ PluginInfoMessageFilter.DecidePluginStatus
      (service_pdf None ["/plugins/pdf"]) guest7 context_page request_pdf
      P1 kAllowed ≠ kDisabled.
Proof.
  apply (no_filter_first_candidate (service_pdf None ["/plugins/pdf"]) guest7
           true context_page request_pdf P1 [P2] "application/pdf").
  - reflexivity.
  - reflexivity.
  - reflexivity.
Defined.

Lemma FindEnabledPlugin_out_params_witness :
  PluginInfoMessageFilter.FindEnabledPlugin service_empty true context_page
    (render_frame_id request_pdf) (url request_pdf)
    (top_origin_url request_pdf) (mime_type request_pdf)
    {| status := kUnauthorized; plugin := Some P2; actual_mime_type := "*" |}
  = Some (false, {| status := kNotFound; plugin := Some P2;
                    actual_mime_type := "*" |})
  ∧ PluginInfoMessageFilter.FindEnabledPlugin (service_pdf None []) true
      context_page (render_frame_id request_pdf) (url request_pdf)
      (top_origin_url request_pdf) (mime_type request_pdf)
      {| status := kUnauthorized; plugin := Some P2; actual_mime_type := "*" |}
    = PluginInfoMessageFilter.FindEnabledPlugin (service_pdf None []) true
        context_page (render_frame_id request_pdf) (url request_pdf)
        (top_origin_url request_pdf) (mime_type request_pdf) Output_new.
Proof.
  split.
  - apply (proj1 (FindEnabledPlugin_out_params service_empty true context_page
                    request_pdf
                    {| status := kUnauthorized; plugin := Some P2;
                       actual_mime_type := "*" |} Output_new)).
    reflexivity.
  - apply (proj2 (FindEnabledPlugin_out_params (service_pdf None []) true
                    context_page request_pdf
                    {| status := kUnauthorized; plugin := Some P2;
                       actual_mime_type := "*" |} Output_new)).
    discriminate.
Defined.

Lemma verdict_ignores_platform_witness :
  PluginInfoMessageFilter.PluginsLoaded
    (table_service [P2] ["*"] true None [] []) guest7 true context_page
    request_mp4 =
  PluginInfoMessageFilter.PluginsLoaded
    (table_service [P2] ["*"] false None [] [P1]) guest7 false context_page
    request_mp4.
Proof.
  apply (verdict_ignores_platform
           (table_service [P2] ["*"] true None [] [])
           (table_service [P2] ["*"] false None [] [P1])
           guest7 true false context_page request_mp4).
  - reflexivity.
  - reflexivity.
  - intros path. reflexivity.
Defined.

Lemma later_filter_answers_ignored_witness :
  PluginInfoMessageFilter.PluginsLoaded
    (service_pdf (Some (accept_only "/plugins/pdf")) []) guest7 true
    context_page request_pdf =
  PluginInfoMessageFilter.PluginsLoaded (service_pdf None []) guest7 true
    context_page request_pdf.
Proof.
  apply (later_filter_answers_ignored
           (service_pdf (Some (accept_only "/plugins/pdf")) [])
           (service_pdf None []) guest7 true context_page request_pdf P1).
  - reflexivity.
  - intros path. reflexivity.
  - reflexivity.
  - reflexivity.
  - intros j q Hj Hq. vm_compute in Hj.
    assert (j = 0) as -> by lia.
    vm_compute in Hq. injection Hq as <-. reflexivity.
Defined.

Lemma internal_available_iff_witness :
  is_available
    (PluginInfoMessageFilter.IsInternalPluginAvailableForMimeType
       (service_pdf None []) "application/pdf") = true.
Proof.
  apply (proj1 (internal_available_iff (service_pdf None []) "application/pdf")).
  exists P1,
    {| content.mime_type := "application/pdf";
       content.additional_param_names := ["zoom"];
       content.additional_param_values := ["fit"] |}.
  split_and!.
  - left.
  - left.
  - reflexivity.
Defined.

Lemma internal_first_plugins_win_witness :
  PluginInfoMessageFilter.IsInternalPluginAvailableForMimeType
    (table_service [] [] true None [] [P2; P1]) "application/pdf" =
  PluginInfoMessageFilter.IsInternalPluginAvailableForMimeType
    (table_service [] [] true None [] [P1]) "application/pdf".
Proof.
  apply (internal_first_plugins_win
           (table_service [] [] true None [] [P2; P1])
           (table_service [] [] true None [] [P2])
           (table_service [] [] true None [] [P1]) "application/pdf").
  reflexivity.
Defined.

Lemma internal_handler_entry_values_witness :
  additional_param_names
    (PluginInfoMessageFilter.OnIsInternalPluginAvailableForMimeType
       (service_pdf None []) "video/mp4"
       {| is_available := true;
          additional_param_names := ["left"];
          additional_param_values := ["over"] |}) = ["left"]
  ∧ additional_param_values
      (PluginInfoMessageFilter.OnIsInternalPluginAvailableForMimeType
         (service_pdf None []) "video/mp4"
         {| is_available := true;
            additional_param_names := ["left"];
            additional_param_values := ["over"] |}) = ["over"].
Proof.
  apply (internal_handler_entry_values (service_pdf None []) "video/mp4"
           {| is_available := true;
              additional_param_names := ["left"];
              additional_param_values := ["over"] |}).
  reflexivity.
Defined.

Lemma message_map_witness :
  (PluginInfoMessageFilter.OnMessageReceived (service_pdf None []) false
     {| reply_msg_id := 5%Z;
        payload :=
          ChromeViewHostMsg_IsInternalPluginAvailableForMimeType
            "application/pdf" |} World_new).2 = World_new.
Proof.
  apply (message_map (service_pdf None []) false
           {| reply_msg_id := 5%Z;
              payload :=
                ChromeViewHostMsg_IsInternalPluginAvailableForMimeType
                  "application/pdf" |} World_new).
  reflexivity.
Defined.


Lemma no_reply_after_destruct_witness :
  ∃ w',
    PluginInfoMessageFilter.plugins_arrive_all (service_pdf None []) guest7
      true context_page [0]
      (PluginInfoMessageFilter.OnDestruct
         {| weak_ptr_factory_ := 0;
            get_plugins_queue :=
              [ {| weak_ptr := 0; bound_params := request_pdf;
                   bound_reply_msg := 5%Z |} ];
            sent := [] |}) = Some w'
    ∧ sent w' = [].
Proof.
  apply (no_reply_after_destruct (service_pdf None []) guest7 true context_page
           [0]
           {| weak_ptr_factory_ := 0;
              get_plugins_queue :=
                [ {| weak_ptr := 0; bound_params := request_pdf;
                     bound_reply_msg := 5%Z |} ];
              sent := [] |}).
  constructor; [simpl; lia|constructor].
Defined.

